(** * TypeStrike combat engine: a shallow embedding and its properties

    The embedded code is the [GameEngine] class (state, tool validation,
    effect application, turn upkeep, real-time tick), the shared [TOOLS]
    catalog and [BotAI.makeDecision].

    Conventions of the embedding:
    - JavaScript numbers that the engine keeps integral (hp, mana, shield,
      catalog amounts, timestamps in milliseconds) are [Z]; cooldown values,
      which the real-time tick makes fractional, are exact rationals [Qc].
    - The [cooldowns] object of an entity is a finite map from tool key to
      remaining cooldown; the [TOOLS] object is an association list, since
      [Object.entries] order decides [findTool] and the bot's choice.
      Reading [TOOLS[key]] finds the object's own entries and, for the
      names every object inherits from [Object.prototype], the inherited
      member; an entry of the [cooldowns] map is an own property.
    - Strings are sequences of 8-bit code units.
    - [Date.now()] and [Math.random()] are read from explicit arguments;
      the thresholds 0.7 and 0.6 and the elapsed seconds of a tick are exact
      rationals.
    - A method that mutates [this.state] becomes a function from the state
      before the call to the state after it (paired with the returned value
      when there is one). *)

From Stdlib Require Import ZArith QArith Qcanon Qround Ascii String.
From stdpp Require Import gmap strings list fin_maps numbers.

Local Open Scope string_scope.
Local Open Scope Z_scope.

(** ** Tool catalog *)

(** An entry of a tool's [effects] array; [EOther] stands for an object whose
    [type] is none of the five kinds [applyEffect] knows. *)
Inductive Effect : Type :=
| EDamage (value : Z)
| EHeal (value : Z)
| EShield (value : Z) (duration : Z)
| EDodge (duration : Z)
| ESlow (duration : Z) (value : Qc)
| EOther (type : string).

Inductive ToolType : Type := attack | defense | utility.

Global Instance ToolType_eq_dec : EqDecision ToolType.
Proof. solve_decision. Defined.

Record Tool : Type := mkTool {
  name : string;
  aliases : list string;
  type : ToolType;
  manaCost : Z;
  cooldown : Z;
  effects : list Effect;
  description : string
}.

Definition TOOLS : list (string * Tool) :=
  [ ("iceball",
     mkTool "Ice Ball" ["ice ball"; "iceball"; "ice"] attack 20 2
            [EDamage 25; ESlow 1 (Q2Qc (1 # 2))]
            "Launch a freezing projectile");
    ("fireball",
     mkTool "Fireball" ["fireball"; "fire ball"; "fire"] attack 30 3
            [EDamage 40]
            "Cast a powerful fire blast");
    ("shield",
     mkTool "Shield" ["shield"; "defend"; "block"] defense 15 4
            [EShield 30 2]
            "Create a protective barrier");
    ("heal",
     mkTool "Heal" ["heal"; "restore"; "mend"] utility 25 5
            [EHeal 35]
            "Restore health");
    ("lightning",
     mkTool "Lightning" ["lightning"; "bolt"; "shock"] attack 35 4
            [EDamage 50]
            "Strike with lightning");
    ("strike",
     mkTool "Strike" ["strike"; "hit"; "attack"] attack 10 1
            [EDamage 15]
            "Quick melee attack");
    ("dodge",
     mkTool "Dodge" ["dodge"; "evade"; "avoid"; "jump"] defense 10 2
            [EDodge 1]
            "Jump to evade the next attack") ].

(** [TOOLS[toolKey]]: the entry stored under the key, if any. *)
Fixpoint assoc_get {A} (key : string) (entries : list (string * A)) : option A :=
  match entries with
  | [] => None
  | (k, v) :: rest => if String.eqb k key then Some v else assoc_get key rest
  end.

Definition TOOLS_get (toolKey : string) : option Tool := assoc_get toolKey TOOLS.

(** ** String normalisation: [input.toLowerCase().trim()] *)

Definition lower_code (n : N) : N :=
  if ((65 <=? n) && (n <=? 90))%N then (n + 32)%N
  else if ((192 <=? n) && (n <=? 222) && negb (n =? 215))%N then (n + 32)%N
  else n.

Definition lower_char (c : ascii) : ascii := ascii_of_N (lower_code (N_of_ascii c)).

Fixpoint toLowerCase (s : string) : string :=
  match s with
  | EmptyString => EmptyString
  | String c rest => String (lower_char c) (toLowerCase rest)
  end.

(** White space and line terminators among the 8-bit code units: TAB, LF, VT,
    FF, CR, SPACE and NO-BREAK SPACE. *)
Definition is_space (c : ascii) : bool :=
  let n := N_of_ascii c in
  (((9 <=? n) && (n <=? 13)) || (n =? 32) || (n =? 160))%N.

Fixpoint trimStart (s : string) : string :=
  match s with
  | EmptyString => EmptyString
  | String c rest => if is_space c then trimStart rest else s
  end.

Fixpoint trimEnd (s : string) : string :=
  match s with
  | EmptyString => EmptyString
  | String c rest =>
      match trimEnd rest with
      | EmptyString => if is_space c then EmptyString else String c EmptyString
      | kept => String c kept
      end
  end.

Definition trim (s : string) : string := trimEnd (trimStart s).

(** ** Entities and match state *)

Inductive Side : Type := SPlayer | SBot.

Global Instance Side_eq_dec : EqDecision Side.
Proof. solve_decision. Defined.

(** The object returned by [applyEffect], one constructor per literal. *)
Inductive EffectResult : Type :=
| RDodged                                   (* {type:"damage", value:0, dodged:true} *)
| RAbsorbed (value absorbed final : Z)      (* {type:"damage", value, absorbed, final} *)
| RDamage (value : Z)                       (* {type:"damage", value} *)
| RHeal (value : Z)
| RShield (value : Z)
| RDodge (duration : Z)
| RSlow (duration : Z)
| RUnknown.

Record Entity : Type := mkEntity {
  hp : Z;
  maxHp : Z;
  mana : Z;
  maxMana : Z;
  shield : Z;
  cooldowns : gmap string Qc;
  statusEffects : list string;
  isDodging : bool;
  lastManaRegen : Z;
  lastCooldownUpdate : option Z
}.

Record Action : Type := mkAction {
  caster : Side;
  tool : string;
  toolKey : string;
  results : list EffectResult;
  timestamp : Z
}.

Record State : Type := mkState {
  player : Entity;
  bot : Entity;
  turn : Side;
  turnCount : Z;
  gameOver : bool;
  winner : option Side;
  lastAction : option Action
}.

(** Field assignments. *)
Definition set_hp (v : Z) (e : Entity) : Entity :=
  mkEntity v (maxHp e) (mana e) (maxMana e) (shield e) (cooldowns e)
           (statusEffects e) (isDodging e) (lastManaRegen e) (lastCooldownUpdate e).
Definition set_mana (v : Z) (e : Entity) : Entity :=
  mkEntity (hp e) (maxHp e) v (maxMana e) (shield e) (cooldowns e)
           (statusEffects e) (isDodging e) (lastManaRegen e) (lastCooldownUpdate e).
Definition set_shield (v : Z) (e : Entity) : Entity :=
  mkEntity (hp e) (maxHp e) (mana e) (maxMana e) v (cooldowns e)
           (statusEffects e) (isDodging e) (lastManaRegen e) (lastCooldownUpdate e).
Definition set_cooldowns (v : gmap string Qc) (e : Entity) : Entity :=
  mkEntity (hp e) (maxHp e) (mana e) (maxMana e) (shield e) v
           (statusEffects e) (isDodging e) (lastManaRegen e) (lastCooldownUpdate e).
Definition set_isDodging (v : bool) (e : Entity) : Entity :=
  mkEntity (hp e) (maxHp e) (mana e) (maxMana e) (shield e) (cooldowns e)
           (statusEffects e) v (lastManaRegen e) (lastCooldownUpdate e).
Definition set_lastManaRegen (v : Z) (e : Entity) : Entity :=
  mkEntity (hp e) (maxHp e) (mana e) (maxMana e) (shield e) (cooldowns e)
           (statusEffects e) (isDodging e) v (lastCooldownUpdate e).
Definition set_lastCooldownUpdate (v : option Z) (e : Entity) : Entity :=
  mkEntity (hp e) (maxHp e) (mana e) (maxMana e) (shield e) (cooldowns e)
           (statusEffects e) (isDodging e) (lastManaRegen e) v.

Definition Qcmax (a b : Qc) : Qc := if decide (a ≤ b)%Qc then b else a.

(** Settings object handed to the constructor; [isRealTime] is computed from
    it once, as [settings.combatMode === "realtime"]. *)
Record Settings : Type := mkSettings {
  dodgingEnabled : bool;
  combatMode : string
}.

Definition isRealTime (settings : Settings) : bool :=
  String.eqb (combatMode settings) "realtime".

(** A message string; the cooldown reason is a template literal over the
    remaining cooldown, kept as its two parts. *)
Inductive Message : Type :=
| Msg (text : string)
| MsgCooldown (cooldownRemaining : Qc) (unit : string).

Inductive CanUse : Type :=
| Valid
| Invalid (reason : Message).

Definition valid (c : CanUse) : bool :=
  match c with Valid => true | Invalid _ => false end.

Inductive ActionResult : Type :=
| Failure (message : Message)
| Success (tool : string) (results : list EffectResult) (message : string).

Definition success (r : ActionResult) : bool :=
  match r with Success _ _ _ => true | Failure _ => false end.

Definition initialEntity (now : Z) : Entity :=
  mkEntity 100 100 100 100 0 ∅ [] false now None.

(** [getInitialState]; the two arguments are the two [Date.now()] reads. *)
Definition getInitialState (now1 now2 : Z) : State :=
  mkState (initialEntity now1) (initialEntity now2) SPlayer 0 false None None.

(** [findTool] returns the first entry one of whose aliases equals the
    normalised input, as the pair of its key and its fields. *)
Fixpoint find_alias (normalized : string) (entries : list (string * Tool))
  : option (string * Tool) :=
  match entries with
  | [] => None
  | (key, t) :: rest =>
      if existsb (fun alias => String.eqb alias normalized) (aliases t)
      then Some (key, t)
      else find_alias normalized rest
  end.

Definition findTool (input : string) : option (string * Tool) :=
  let normalized := trim (toLowerCase input) in
  find_alias normalized TOOLS.

(** The property names every object literal inherits from
    [Object.prototype]. *)
Definition ObjectPrototype_names : list string :=
  [ "constructor"; "hasOwnProperty"; "isPrototypeOf"; "propertyIsEnumerable";
    "toLocaleString"; "toString"; "valueOf"; "__proto__";
    "__defineGetter__"; "__defineSetter__"; "__lookupGetter__"; "__lookupSetter__" ].

Definition inherited (key : string) : bool :=
  existsb (String.eqb key) ObjectPrototype_names.

(** What reading [TOOLS[toolKey]] yields: an entry of the catalog, a member
    of [Object.prototype] (a function, or the prototype object itself), or
    [undefined]. *)
Inductive Member : Type :=
| Own (tool : Tool)
| Inherited
| Missing.

Definition TOOLS_read (toolKey : string) : Member :=
  match TOOLS_get toolKey with
  | Some tool => Own tool
  | None => if inherited toolKey then Inherited else Missing
  end.

Section Engine.

Variable settings : Settings.

(** With an inherited member for [tool], [!tool] is false, [tool.manaCost]
    is [undefined] and [entity.mana < undefined] is false; the same name
    read off the [cooldowns] object gives its own entry if there is one and
    otherwise again an inherited member, which is truthy and not above 0. *)
Definition canUseTool (entity : Entity) (toolKey : string) : CanUse :=
  match TOOLS_read toolKey with
  | Missing => Invalid (Msg "Tool not found")
  | Own tool =>
      if String.eqb toolKey "dodge" && negb (dodgingEnabled settings)
      then Invalid (Msg "Dodging is disabled")
      else if mana entity <? manaCost tool
      then Invalid (Msg "Not enough mana")
      else
        let cooldownRemaining := default 0%Qc (cooldowns entity !! toolKey) in
        if decide (0 < cooldownRemaining)%Qc
        then Invalid (MsgCooldown cooldownRemaining
                        (if isRealTime settings then "s" else " turns"))
        else Valid
  | Inherited =>
      if String.eqb toolKey "dodge" && negb (dodgingEnabled settings)
      then Invalid (Msg "Dodging is disabled")
      else
        match cooldowns entity !! toolKey with
        | Some cooldownRemaining =>
            if decide (0 < cooldownRemaining)%Qc
            then Invalid (MsgCooldown cooldownRemaining
                            (if isRealTime settings then "s" else " turns"))
            else Valid
        | None => Valid
        end
  end.

(** [applyEffect(effect, caster, target)]: the returned record and the two
    entities after the call. Caster and target are always the two distinct
    entity objects of the state. *)
Definition applyEffect (effect : Effect) (caster target : Entity)
  : EffectResult * Entity * Entity :=
  match effect with
  | EDamage value =>
      if isDodging target
      then (RDodged, caster, set_isDodging false target)
      else if 0 <? shield target
      then
        let absorbed := Z.min (shield target) value in
        let target := set_shield (shield target - absorbed) target in
        let damage := value - absorbed in
        let target :=
          if 0 <? damage then set_hp (Z.max 0 (hp target - damage)) target
          else target in
        (RAbsorbed value absorbed damage, caster, target)
      else (RDamage value, caster, set_hp (Z.max 0 (hp target - value)) target)
  | EHeal value =>
      let healed := Z.min value (maxHp caster - hp caster) in
      (RHeal healed, set_hp (Z.min (maxHp caster) (hp caster + value)) caster, target)
  | EShield value _ =>
      (RShield value, set_shield (shield caster + value) caster, target)
  | EDodge duration =>
      (RDodge duration, set_isDodging true caster, target)
  | ESlow duration _ =>
      (RSlow duration, caster, target)
  | EOther _ =>
      (RUnknown, caster, target)
  end.

(** The loop of [useTool] over [tool.effects], pushing each result. *)
Fixpoint applyEffects (effs : list Effect) (caster target : Entity)
  : list EffectResult * Entity * Entity :=
  match effs with
  | [] => ([], caster, target)
  | effect :: rest =>
      let '(result, caster, target) := applyEffect effect caster target in
      let '(results, caster, target) := applyEffects rest caster target in
      (result :: results, caster, target)
  end.

(** The body of the entity loop of [endTurn]. *)
Definition upkeep (entity : Entity) : Entity :=
  let entity :=
    set_cooldowns ((fun c => Qcmax 0 (c - 1)%Qc) <$> cooldowns entity) entity in
  let entity := set_mana (Z.min (maxMana entity) (mana entity + 10)) entity in
  if isDodging entity then set_isDodging false entity else entity.

Definition flip (side : Side) : Side :=
  match side with SPlayer => SBot | SBot => SPlayer end.

Definition endTurn (s : State) : State :=
  mkState (upkeep (player s)) (upkeep (bot s))
          (flip (turn s)) (turnCount s + 1)
          (gameOver s) (winner s) (lastAction s).

(** The body of the entity loop of [updateRealTime]; [now] is the one
    [Date.now()] read at the start of the call. *)
Definition tick (now : Z) (entity : Entity) : Entity :=
  let entity :=
    if 1000 <=? now - lastManaRegen entity
    then set_lastManaRegen now
           (set_mana (Z.min (maxMana entity) (mana entity + 10)) entity)
    else entity in
  let last :=
    match lastCooldownUpdate entity with
    | None | Some 0 => now
    | Some t => t
    end in
  let timePassed := (Qc_of_Z (now - last) / Qc_of_Z 1000)%Qc in
  let entity :=
    set_cooldowns
      ((fun c => if decide (0 < c)%Qc then Qcmax 0 (c - timePassed)%Qc else c)
         <$> cooldowns entity) entity in
  set_lastCooldownUpdate (Some now) entity.

Definition updateRealTime (now : Z) (s : State) : State :=
  mkState (tick now (player s)) (tick now (bot s))
          (turn s) (turnCount s) (gameOver s) (winner s) (lastAction s).

Definition checkGameOver (s : State) : State :=
  if hp (player s) <=? 0
  then mkState (player s) (bot s) (turn s) (turnCount s) true (Some SBot) (lastAction s)
  else if hp (bot s) <=? 0
  then mkState (player s) (bot s) (turn s) (turnCount s) true (Some SPlayer) (lastAction s)
  else s.

Definition sideOf (isPlayer : bool) : Side := if isPlayer then SPlayer else SBot.

(** [useTool(toolInput, isPlayer)]: the returned result and the state after
    the call; [now] is the [Date.now()] read for the action's timestamp. *)
Definition useTool (now : Z) (toolInput : string) (isPlayer : bool) (s : State)
  : ActionResult * State :=
  if gameOver s then (Failure (Msg "Game is over"), s)
  else if negb (isRealTime settings) && negb (bool_decide (turn s = sideOf isPlayer))
  then (Failure (Msg "Not your turn"), s)
  else
    match findTool toolInput with
    | None => (Failure (Msg "Unknown tool"), s)
    | Some (key, tool) =>
        let caster := if isPlayer then player s else bot s in
        let target := if isPlayer then bot s else player s in
        match canUseTool caster key with
        | Invalid reason => (Failure reason, s)
        | Valid =>
            let caster := set_mana (mana caster - manaCost tool) caster in
            let caster :=
              set_cooldowns (<[key := Qc_of_Z (cooldown tool)]> (cooldowns caster))
                            caster in
            let '(results, caster, target) :=
              applyEffects (effects tool) caster target in
            let action :=
              mkAction (sideOf isPlayer) (name tool) key results now in
            let s :=
              mkState (if isPlayer then caster else target)
                      (if isPlayer then target else caster)
                      (turn s) (turnCount s) (gameOver s) (winner s)
                      (Some action) in
            let s := checkGameOver s in
            let s :=
              if negb (isRealTime settings) && negb (gameOver s)
              then endTurn s else s in
            (Success (name tool) results (name tool ++ " used!"), s)
        end
    end.

(** [reset] replaces the state by a fresh initial one. *)
Definition reset (now1 now2 : Z) (s : State) : State := getInitialState now1 now2.

(** ** Bot decision: [BotAI.makeDecision] *)

(** What a call yields: [null], the chosen tool's display name, or the
    [TypeError] of reading [.name] of [undefined]. *)
Inductive Choice : Type :=
| NoMove
| Move (toolName : string)
| Fault.

(** The loop filling [availableTools]. *)
Definition availableTools (s : State) : list (string * Tool) :=
  List.filter (fun kt => valid (canUseTool (bot s) (fst kt))) TOOLS.

(** [t.effects.find(e => e.type === "damage")?.value || 0] *)
Fixpoint damageOf (effs : list Effect) : Z :=
  match effs with
  | [] => 0
  | EDamage value :: _ => value
  | _ :: rest => damageOf rest
  end.

(** [Array.prototype.sort] with the comparator [(a, b) => bDmg - aDmg]: a
    stable sort, written as insertion from the right. *)
Definition compareDamage (a b : string * Tool) : Z :=
  damageOf (effects (snd b)) - damageOf (effects (snd a)).

Fixpoint insertSorted (x : string * Tool) (l : list (string * Tool))
  : list (string * Tool) :=
  match l with
  | [] => [x]
  | y :: rest =>
      if compareDamage x y <=? 0 then x :: y :: rest
      else y :: insertSorted x rest
  end.

Fixpoint sortByDamage (l : list (string * Tool)) : list (string * Tool) :=
  match l with
  | [] => []
  | x :: rest => insertSorted x (sortByDamage rest)
  end.

Definition findKey (key : string) (l : list (string * Tool)) : option (string * Tool) :=
  List.find (fun t => String.eqb (fst t) key) l.

Definition orElse {A} (chosen : option A) (next : option A) : option A :=
  match chosen with Some _ => chosen | None => next end.

(** [r1], [r2] and [r3] are the values of the three [Math.random()] call
    sites, in source order; a site that is not reached ignores its value. *)
Definition makeDecision (r1 r2 r3 : Qc) (s : State) : Choice :=
  let bot := bot s in
  let available := availableTools s in
  if bool_decide (length available = 0%nat) then NoMove
  else
    let chosen : option (string * Tool) :=
      if dodgingEnabled settings && bool_decide (Q2Qc (7 # 10) < r1)%Qc
      then findKey "dodge" available else None in
    let chosen :=
      orElse chosen
        (if (hp bot <? 40) && (25 <=? mana bot)
         then findKey "heal" available else None) in
    let chosen :=
      orElse chosen
        (if (shield bot =? 0) && (15 <=? mana bot)
            && bool_decide (Q2Qc (6 # 10) < r2)%Qc
         then findKey "shield" available else None) in
    let chosen :=
      orElse chosen
        (let attacks :=
           List.filter (fun t => bool_decide (type (snd t) = attack)) available in
         head (sortByDamage attacks)) in
    let chosen :=
      orElse chosen
        (let index := Qfloor (r3 * Qc_of_Z (Z.of_nat (length available)))%Qc in
         if index <? 0 then None else available !! Z.to_nat index) in
    match chosen with
    | Some t => Move (name (snd t))
    | None => Fault
    end.

End Engine.

(** ** Runs of the engine *)

(** The states an engine built with [settings] can be in: the initial state,
    closed under the four state-changing methods. *)
Inductive reachable (settings : Settings) : State -> Prop :=
| reach_init now1 now2 :
    reachable settings (getInitialState now1 now2)
| reach_useTool s now toolInput isPlayer :
    reachable settings s ->
    reachable settings (snd (useTool settings now toolInput isPlayer s))
| reach_endTurn s :
    reachable settings s -> reachable settings (endTurn s)
| reach_updateRealTime s now :
    reachable settings s -> reachable settings (updateRealTime now s)
| reach_reset s now1 now2 :
    reachable settings s -> reachable settings (reset now1 now2 s).

(** Resource bounds of one entity. *)
Definition entity_ok (e : Entity) : Prop :=
  0 <= hp e <= maxHp e /\
  0 <= mana e <= maxMana e /\
  0 <= shield e /\
  map_Forall (fun _ c => (0 ≤ c)%Qc) (cooldowns e).

Definition state_ok (s : State) : Prop :=
  entity_ok (player s) /\ entity_ok (bot s).

(** Amounts of a catalog effect and of a catalog tool are not negative. *)
Definition effect_ok (effect : Effect) : Prop :=
  match effect with
  | EDamage value | EHeal value | EShield value _ => 0 <= value
  | _ => True
  end.

Definition tool_ok (t : Tool) : Prop :=
  0 <= manaCost t /\ 0 <= cooldown t /\ Forall effect_ok (effects t).

(** ** Vocabulary of the statements *)

Definition entityOf (side : Side) (s : State) : Entity :=
  match side with SPlayer => player s | SBot => bot s end.

(** [r.dodged], as the callers of [useTool] read it off an effect result. *)
Definition dodged (r : EffectResult) : bool :=
  match r with RDodged => true | _ => false end.

Definition resultsOf (r : ActionResult) : list EffectResult :=
  match r with Success _ results _ => results | Failure _ => [] end.

(** Neither entity is dodging. *)
Definition no_dodge (s : State) : Prop :=
  isDodging (player s) = false /\ isDodging (bot s) = false.

(** While the match is open both entities have hp left. *)
Definition alive_unless_over (s : State) : Prop :=
  gameOver s = false -> 0 < hp (player s) /\ 0 < hp (bot s).

Definition sets_dodge (effect : Effect) : bool :=
  match effect with EDodge _ => true | _ => false end.

Definition touches_hp (effect : Effect) : bool :=
  match effect with EDamage _ | EHeal _ => true | _ => false end.

(** The fields [updateRealTime] never assigns. *)
Definition vitals (e : Entity) : Z * Z * Z * Z * bool * list string :=
  (hp e, maxHp e, maxMana e, shield e, isDodging e, statusEffects e).

Definition untouched_by_tick (s : State) :=
  (vitals (player s), vitals (bot s), turn s, turnCount s,
   gameOver s, winner s, lastAction s).

(** The reasons a [useTool] call can fail with. *)
Definition expected_failure (m : Message) : Prop :=
  m = Msg "Game is over" \/ m = Msg "Not your turn" \/ m = Msg "Unknown tool" \/
  m = Msg "Dodging is disabled" \/ m = Msg "Not enough mana" \/
  exists c u, m = MsgCooldown c u.

(** A catalog tool the bot may use now. *)
Definition usable (settings : Settings) (s : State) (key : string) (t : Tool) : Prop :=
  In (key, t) TOOLS /\ canUseTool settings (bot s) key = Valid.

(** ** Concrete matches *)

Definition turnBased : Settings := mkSettings false "turnbased".
Definition realTime : Settings := mkSettings true "realtime".
Definition turnBasedDodging : Settings := mkSettings true "turnbased".

Definition fresh : State := getInitialState 0 0.

(** A real-time match the player wins with three casts. *)
Definition finished : State :=
  (useTool realTime 30 "strike" true
     (useTool realTime 20 "fireball" true
        (useTool realTime 10 "lightning" true fresh).2).2).2.

(** A real-time match in which the player has just cast dodge. *)
Definition evading : State := (useTool realTime 10 "dodge" true fresh).2.

(** An entity that already carries a shield of 30, and one with 10 hp left. *)
Definition shielded : Entity := set_shield 30 (initialEntity 0).
Definition wounded : Entity := set_hp 10 (initialEntity 0).

(** ** The bot's move and further vocabulary *)

(** The body of the callback that [BotAI.takeTurn] schedules: the result
    handed to [onComplete] and the state after it, or [None] when
    [makeDecision] throws. A decision is used when it is truthy, that is,
    a non-empty string. *)
Definition takeTurn (settings : Settings) (r1 r2 r3 : Qc) (now : Z) (s : State)
  : option (ActionResult * State) :=
  match makeDecision settings r1 r2 r3 s with
  | Fault => None
  | NoMove => Some (Failure (Msg "Bot has no valid moves"), s)
  | Move decision =>
      if String.eqb decision "" then Some (Failure (Msg "Bot has no valid moves"), s)
      else Some (useTool settings now decision false s)
  end.

(** [input.toLowerCase().trim()], the string [findTool] compares with the
    aliases. *)
Definition normalize (input : string) : string := trim (toLowerCase input).

(** The caster of [useTool] once the mana cost is taken and the cooldown
    entry is set. *)
Definition pay (key : string) (t : Tool) (caster : Entity) : Entity :=
  set_cooldowns
    (<[key := Qc_of_Z (cooldown t)]> (cooldowns (set_mana (mana caster - manaCost t) caster)))
    (set_mana (mana caster - manaCost t) caster).

(** The state of [useTool] once the effects are applied and the action is
    recorded, and what the rest of the call makes of it. *)
Definition recorded (now : Z) (key : string) (t : Tool) (isPlayer : bool)
    (out : list EffectResult * Entity * Entity) (s : State) : State :=
  mkState (if isPlayer then out.1.2 else out.2)
          (if isPlayer then out.2 else out.1.2)
          (turn s) (turnCount s) (gameOver s) (winner s)
          (Some (mkAction (sideOf isPlayer) (name t) key out.1.1 now)).

Definition settle (settings : Settings) (s : State) : State :=
  if negb (isRealTime settings) && negb (gameOver (checkGameOver s))
  then endTurn (checkGameOver s) else checkGameOver s.

(** The fields no effect assigns. *)
Definition frame (e : Entity) :=
  (maxHp e, mana e, maxMana e, cooldowns e, statusEffects e,
   lastManaRegen e, lastCooldownUpdate e).

(** The match is open with both entities alive and no winner, or it is over
    with exactly the loser at 0 hp. *)
Definition outcome_ok (s : State) : Prop :=
  match winner s with
  | None => gameOver s = false /\ 0 < hp (player s) /\ 0 < hp (bot s)
  | Some SBot => gameOver s = true /\ hp (player s) = 0 /\ 0 < hp (bot s)
  | Some SPlayer => gameOver s = true /\ hp (bot s) = 0 /\ 0 < hp (player s)
  end.

Definition turn_parity (s : State) : Prop :=
  0 <= turnCount s /\ (turn s = SPlayer <-> Z.even (turnCount s) = true).

(** A tool of the bot's attack list that deals the most damage. *)
Definition best_attack (settings : Settings) (s : State) (t : Tool) : Prop :=
  type t = attack /\
  forall key' t', usable settings s key' t' -> type t' = attack ->
                  damageOf (effects t') <= damageOf (effects t).

(** ** Facts about the catalog *)

Ltac catalog_cases H :=
  unfold TOOLS in H; simpl in H;
  repeat (destruct H as [H | H]; [inversion H; subst; clear H |]);
  try contradiction.

Lemma TOOLS_ok key t : In (key, t) TOOLS -> tool_ok t.
Proof.
  intros H. catalog_cases H; unfold tool_ok; simpl;
    (split; [lia | split; [lia |]]); repeat constructor; simpl; lia.
Qed.

Lemma TOOLS_get_In key t : In (key, t) TOOLS -> TOOLS_get key = Some t.
Proof. intros H. catalog_cases H; reflexivity. Qed.

Lemma find_alias_In normalized entries key t :
  find_alias normalized entries = Some (key, t) -> In (key, t) entries.
Proof.
  induction entries as [| [k v] rest IH]; simpl; [discriminate |].
  destruct (existsb _ _).
  - intros [= -> ->]. now left.
  - intros H. right. now apply IH.
Qed.

Lemma findTool_In input key t : findTool input = Some (key, t) -> In (key, t) TOOLS.
Proof. apply find_alias_In. Qed.

Example findTool_normalises : fst <$> findTool "  Fire Ball " = Some "fireball".
Proof. vm_compute. reflexivity. Qed.

Example findTool_no_prefix_match : findTool "fireb" = None.
Proof. vm_compute. reflexivity. Qed.

(** The display name [makeDecision] returns is resolved by [findTool] to the
    tool it names. *)
Lemma findTool_name : Forall (fun kt => findTool (name kt.2) = Some kt) TOOLS.
Proof. repeat constructor. Qed.

(** ** Arithmetic on cooldown values *)

Lemma Qcmax_nonneg (c : Qc) : (0 ≤ Qcmax 0 c)%Qc.
Proof. unfold Qcmax. case_decide; [assumption | apply Qcle_refl]. Qed.

Lemma Qc_of_Z_nonneg (z : Z) : 0 <= z -> (0 ≤ Qc_of_Z z)%Qc.
Proof.
  intros H. unfold Qcle, Qc_of_Z. simpl.
  change (inject_Z 0 <= inject_Z z)%Q. now rewrite <- Zle_Qle.
Qed.

(** ** Preservation of the resource bounds *)

Lemma applyEffect_ok effect caster target :
  effect_ok effect -> entity_ok caster -> entity_ok target ->
  entity_ok (applyEffect effect caster target).1.2 /\
  entity_ok (applyEffect effect caster target).2.
Proof.
  intros He (Hc1 & Hc2 & Hc3 & Hc4) (Ht1 & Ht2 & Ht3 & Ht4).
  destruct effect; simpl in *; unfold entity_ok.
  - destruct (isDodging target); simpl; [tauto |].
    destruct (0 <? shield target) eqn:Hs; simpl.
    + destruct (0 <? value - Z.min (shield target) value) eqn:Hd; simpl;
        repeat split; try assumption; lia.
    + repeat split; try assumption; lia.
  - simpl; repeat split; try assumption; lia.
  - simpl; repeat split; try assumption; lia.
  - simpl; tauto.
  - simpl; tauto.
  - simpl; tauto.
Qed.

Lemma applyEffects_ok effs : forall caster target,
  Forall effect_ok effs -> entity_ok caster -> entity_ok target ->
  entity_ok (applyEffects effs caster target).1.2 /\
  entity_ok (applyEffects effs caster target).2.
Proof.
  induction effs as [| effect rest IH]; intros caster target Hall Hc Ht; simpl.
  - tauto.
  - inversion Hall as [| ? ? He Hrest]; subst.
    destruct (applyEffect_ok effect caster target He Hc Ht) as [Hc' Ht'].
    destruct (applyEffect effect caster target) as [[result c1] t1]; simpl in *.
    specialize (IH c1 t1 Hrest Hc' Ht').
    destruct (applyEffects rest c1 t1) as [[rs c2] t2]; simpl in *.
    exact IH.
Qed.

Lemma upkeep_ok e : entity_ok e -> entity_ok (upkeep e).
Proof.
  intros (H1 & H2 & H3 & H4). unfold upkeep; simpl.
  assert (Hcd : map_Forall (fun _ c => (0 ≤ c)%Qc)
                  ((fun c => Qcmax 0 (c - 1)%Qc) <$> cooldowns e)).
  { apply map_Forall_fmap. intros k c _. apply Qcmax_nonneg. }
  destruct (isDodging e); unfold entity_ok; simpl;
    repeat split; try assumption; lia.
Qed.

Lemma tick_ok now e : entity_ok e -> entity_ok (tick now e).
Proof.
  intros (H1 & H2 & H3 & H4). unfold tick, entity_ok.
  destruct (1000 <=? now - lastManaRegen e); simpl;
    (repeat split; try assumption; try lia);
    apply map_Forall_fmap; intros k c Hk; simpl;
    (case_decide; [apply Qcmax_nonneg | exact (H4 k c Hk)]).
Qed.

Lemma checkGameOver_ok s : state_ok s -> state_ok (checkGameOver s).
Proof.
  intros H. unfold checkGameOver.
  destruct (hp (player s) <=? 0); [exact H |].
  destruct (hp (bot s) <=? 0); exact H.
Qed.

Lemma endTurn_ok s : state_ok s -> state_ok (endTurn s).
Proof. intros [Hp Hb]. split; simpl; now apply upkeep_ok. Qed.

Lemma canUseTool_valid_mana settings entity key t :
  TOOLS_get key = Some t -> canUseTool settings entity key = Valid ->
  manaCost t <= mana entity.
Proof.
  unfold canUseTool, TOOLS_read. intros ->. cbv beta iota.
  destruct (_ && _); [discriminate |].
  destruct (mana entity <? manaCost t) eqn:Hm; [discriminate |].
  intros _. lia.
Qed.

Lemma useTool_ok settings now toolInput isPlayer s :
  state_ok s -> state_ok (useTool settings now toolInput isPlayer s).2.
Proof.
  intros Hs. unfold useTool.
  destruct (gameOver s); [exact Hs |].
  destruct (_ && _); [exact Hs |].
  destruct (findTool toolInput) as [[key t] |] eqn:Hfind; [| exact Hs].
  destruct (canUseTool settings _ key) eqn:Hcan; [| exact Hs].
  pose proof (findTool_In _ _ _ Hfind) as Hin.
  destruct (TOOLS_ok _ _ Hin) as (Hcost & Hcd & Heffs).
  pose proof (canUseTool_valid_mana _ _ _ _ (TOOLS_get_In _ _ Hin) Hcan) as Hmana.
  destruct Hs as [Hp Hb].
  set (c0 := if isPlayer then player s else bot s) in *.
  set (t0 := if isPlayer then bot s else player s) in *.
  assert (Hc0 : entity_ok c0) by (subst c0; now destruct isPlayer).
  assert (Ht0 : entity_ok t0) by (subst t0; now destruct isPlayer).
  set (c1 := set_cooldowns _ _).
  assert (Hc1 : entity_ok c1).
  { destruct Hc0 as (H1 & H2 & H3 & H4). subst c1. unfold entity_ok; simpl.
    repeat split; try assumption; try lia.
    apply map_Forall_insert_2; [now apply Qc_of_Z_nonneg | assumption]. }
  destruct (applyEffects_ok (effects t) c1 t0 Heffs Hc1 Ht0) as [Hc2 Ht2].
  destruct (applyEffects (effects t) c1 t0) as [[rs c2] t2]; simpl in *.
  match goal with
  | |- state_ok (if ?b then endTurn ?x else ?x) =>
      assert (Hx : state_ok x);
      [ apply checkGameOver_ok; split; simpl; now destruct isPlayer
      | destruct b; [now apply endTurn_ok | exact Hx] ]
  end.
Qed.

Lemma updateRealTime_ok now s : state_ok s -> state_ok (updateRealTime now s).
Proof. intros [Hp Hb]. split; simpl; now apply tick_ok. Qed.

Lemma getInitialState_ok now1 now2 : state_ok (getInitialState now1 now2).
Proof.
  split; unfold entity_ok; simpl; (repeat split; try lia); apply map_Forall_empty.
Qed.

(** C4: in every state that a run of the engine reaches from the initial
    state through [useTool], [endTurn], [updateRealTime] and [reset], both
    entities have [0 <= hp <= maxHp], [0 <= mana <= maxMana], [0 <= shield]
    and every cooldown value at least [0]. *)
Theorem C4_resource_bounds settings s :
  reachable settings s -> state_ok s.
Proof.
  induction 1.
  - apply getInitialState_ok.
  - now apply useTool_ok.
  - now apply endTurn_ok.
  - now apply updateRealTime_ok.
  - apply getInitialState_ok.
Qed.

Lemma C4_resource_bounds_witness : state_ok (updateRealTime 2000 finished).
Proof.
  apply (C4_resource_bounds realTime).
  apply reach_updateRealTime. unfold finished.
  repeat apply reach_useTool. apply reach_init.
Defined.

(** ** Failed calls and the game-over gate *)

Lemma useTool_gameOver settings now toolInput isPlayer s :
  gameOver s = true ->
  useTool settings now toolInput isPlayer s = (Failure (Msg "Game is over"), s).
Proof. intros H. unfold useTool. now rewrite H. Qed.

Lemma canUseTool_invalid_reason settings entity key t reason :
  TOOLS_get key = Some t ->
  canUseTool settings entity key = Invalid reason ->
  reason = Msg "Dodging is disabled" \/ reason = Msg "Not enough mana" \/
  exists c u, reason = MsgCooldown c u.
Proof.
  unfold canUseTool, TOOLS_read. intros ->. cbv beta iota.
  destruct (_ && _); [intros [= <-]; tauto |].
  destruct (_ <? _); [intros [= <-]; tauto |].
  case_decide; [intros [= <-]; eauto | discriminate].
Qed.

Lemma updateRealTime_untouched now s :
  untouched_by_tick (updateRealTime now s) = untouched_by_tick s.
Proof.
  unfold untouched_by_tick, updateRealTime, vitals, tick; simpl.
  destruct (1000 <=? now - lastManaRegen (player s));
    destruct (1000 <=? now - lastManaRegen (bot s)); reflexivity.
Qed.

(** C1 (as amended): once [gameOver] is true, every [useTool] call, for
    either entity and in either mode, returns the failure "Game is over" and
    leaves the whole state as it was; [updateRealTime] is not gated by
    [gameOver], and what it leaves as it was is hp, maxHp, maxMana, shield
    and the dodge flag of both entities, the turn, the turn counter, the
    game-over flag, the winner and the last action. *)
Theorem C1_game_over_gate s :
  gameOver s = true ->
  (forall settings now toolInput isPlayer,
      useTool settings now toolInput isPlayer s = (Failure (Msg "Game is over"), s)) /\
  (forall now, untouched_by_tick (updateRealTime now s) = untouched_by_tick s).
Proof.
  intros H. split.
  - intros. now apply useTool_gameOver.
  - intros. apply updateRealTime_untouched.
Qed.

Lemma C1_game_over_gate_witness :
  gameOver finished = true /\
  useTool turnBased 40 "heal" false finished = (Failure (Msg "Game is over"), finished) /\
  untouched_by_tick (updateRealTime 2000 finished) = untouched_by_tick finished.
Proof.
  assert (H : gameOver finished = true) by (vm_compute; reflexivity).
  destruct (C1_game_over_gate finished H) as [Huse Htick].
  split; [exact H |]. split; [apply Huse | apply Htick].
Defined.

(** C1 fails as stated: [finished] is a terminal state that a real-time
    match reaches, and a tick there still regenerates the player's mana. *)
Lemma C1_tick_after_game_over :
  reachable realTime finished /\
  gameOver finished = true /\
  mana (player finished) = 25 /\
  mana (player (updateRealTime 2000 finished)) = 35 /\
  updateRealTime 2000 finished <> finished.
Proof.
  split; [repeat apply reach_useTool; apply reach_init |].
  split; [vm_compute; reflexivity |].
  split; [vm_compute; reflexivity |].
  split; [vm_compute; reflexivity |].
  intros Heq. apply (f_equal (fun s => mana (player s))) in Heq.
  vm_compute in Heq. discriminate.
Qed.

(** ** The fireball opening *)

Lemma lookup_Qc_of_Z (m : gmap string Qc) (k : string) (z : Z) :
  this <$> m !! k = Some (inject_Z z) -> m !! k = Some (Qc_of_Z z).
Proof.
  destruct (m !! k) as [q |]; simpl; [| discriminate].
  intros [= H]. f_equal. apply Qc_is_canon. rewrite H. reflexivity.
Qed.

(** C2 (as amended): in a fresh turn-based match the player's cast of
    "fireball" succeeds and, once the call has returned, the bot's hp is 60,
    the player's mana is 80 (30 spent, 10 regenerated by the upkeep of the
    same call), the player's cooldown entry for fireball is 2 (set to 3,
    lowered once by that upkeep) and the bot holds the turn. *)
Theorem C2_fireball_opening settings now now1 now2 :
  isRealTime settings = false ->
  let call := useTool settings now "fireball" true (getInitialState now1 now2) in
  success call.1 = true /\
  hp (bot call.2) = 60 /\
  mana (player call.2) = 80 /\
  cooldowns (player call.2) !! "fireball" = Some (Qc_of_Z 2) /\
  turn call.2 = SBot.
Proof.
  intros Hmode call. subst call. unfold useTool, canUseTool, TOOLS_read.
  rewrite !Hmode.
  repeat split; try (vm_compute; reflexivity).
  apply lookup_Qc_of_Z. vm_compute. reflexivity.
Qed.

Lemma C2_fireball_opening_witness :
  let call := useTool turnBased 5 "fireball" true (getInitialState 0 0) in
  success call.1 = true /\
  hp (bot call.2) = 60 /\
  mana (player call.2) = 80 /\
  cooldowns (player call.2) !! "fireball" = Some (Qc_of_Z 2) /\
  turn call.2 = SBot.
Proof. exact (C2_fireball_opening turnBased 5 0 0 eq_refl). Defined.

(** C2 fails as stated: after the call the player's mana is not 70 and the
    fireball cooldown entry is not 3. *)
Lemma C2_mana_and_cooldown_after_upkeep :
  let s' := (useTool turnBased 5 "fireball" true fresh).2 in
  mana (player s') <> 70 /\
  cooldowns (player s') !! "fireball" <> Some (Qc_of_Z 3).
Proof.
  split.
  - vm_compute. discriminate.
  - intros H.
    assert (Hq : (this <$> cooldowns (player
              (useTool turnBased 5 "fireball" true fresh).2) !! "fireball")
             = Some (this (Qc_of_Z 3))) by (now rewrite H).
    vm_compute in Hq. discriminate.
Qed.

(** ** Failures change nothing *)

(** C5: a [useTool] call that returns a failure leaves the whole state as it
    was, and the failure is a result value carrying one of the six reasons:
    game over, wrong turn, unknown tool, dodging disabled, not enough mana,
    cooldown active. *)
Theorem C5_failure_is_pure settings now toolInput isPlayer s :
  success (useTool settings now toolInput isPlayer s).1 = false ->
  (useTool settings now toolInput isPlayer s).2 = s /\
  exists reason,
    (useTool settings now toolInput isPlayer s).1 = Failure reason /\
    expected_failure reason.
Proof.
  unfold useTool, expected_failure.
  destruct (gameOver s); [intros _; split; eauto 10 |].
  destruct (_ && _); [intros _; split; eauto 10 |].
  destruct (findTool toolInput) as [[key t] |] eqn:Hfind;
    [| intros _; split; eauto 10].
  pose proof (TOOLS_get_In _ _ (findTool_In _ _ _ Hfind)) as Hget.
  destruct (canUseTool settings _ key) as [| reason] eqn:Hcan.
  - destruct (applyEffects _ _ _) as [[rs c2] t2]. simpl. discriminate.
  - intros _. split; [reflexivity |]. exists reason. split; [reflexivity |].
    destruct (canUseTool_invalid_reason _ _ _ _ _ Hget Hcan) as [-> | [-> | H]];
      tauto.
Qed.

Lemma C5_failure_is_pure_witness :
  (useTool turnBased 7 "fireball" false fresh).2 = fresh /\
  exists reason,
    (useTool turnBased 7 "fireball" false fresh).1 = Failure reason /\
    expected_failure reason.
Proof. exact (C5_failure_is_pure turnBased 7 "fireball" false fresh eq_refl). Defined.

(** ** Turn order *)

Lemma turn_checkGameOver s : turn (checkGameOver s) = turn s.
Proof.
  unfold checkGameOver.
  destruct (hp (player s) <=? 0); [reflexivity |].
  destruct (hp (bot s) <=? 0); reflexivity.
Qed.

Lemma turnCount_checkGameOver s : turnCount (checkGameOver s) = turnCount s.
Proof.
  unfold checkGameOver.
  destruct (hp (player s) <=? 0); [reflexivity |].
  destruct (hp (bot s) <=? 0); reflexivity.
Qed.

(** C7: in turn-based mode and while the match is open, a [useTool] call by
    the entity that does not hold the turn fails with "Not your turn" and
    leaves the state as it was; a call that succeeds without ending the
    match is a call by the turn holder, after which the turn is held by the
    caller's opponent (the bot after a player call, the player after a bot
    call), so no longer by the previous holder, and the turn counter is
    higher by exactly one. *)
Theorem C7_turn_order settings now toolInput isPlayer s :
  isRealTime settings = false ->
  gameOver s = false ->
  (turn s <> sideOf isPlayer ->
   useTool settings now toolInput isPlayer s = (Failure (Msg "Not your turn"), s)) /\
  (success (useTool settings now toolInput isPlayer s).1 = true ->
   gameOver (useTool settings now toolInput isPlayer s).2 = false ->
   turn s = sideOf isPlayer /\
   turn (useTool settings now toolInput isPlayer s).2 = sideOf (negb isPlayer) /\
   turn (useTool settings now toolInput isPlayer s).2 <> turn s /\
   turnCount (useTool settings now toolInput isPlayer s).2 = turnCount s + 1).
Proof.
  intros Hmode Hopen. unfold useTool. rewrite Hmode, Hopen. simpl negb.
  split.
  - intros Hturn. rewrite bool_decide_eq_false_2 by assumption. reflexivity.
  - destruct (bool_decide (turn s = sideOf isPlayer)) eqn:Hturn;
      [| simpl; discriminate].
    apply bool_decide_eq_true_1 in Hturn. simpl andb.
    destruct (findTool toolInput) as [[key t] |]; [| simpl; discriminate].
    destruct (canUseTool settings _ key); [| simpl; discriminate].
    destruct (applyEffects _ _ _) as [[rs c2] t2].
    set (s1 := checkGameOver _).
    destruct (gameOver s1) eqn:Hover; simpl.
    + intros _ Hs1. congruence.
    + intros _ _. split; [assumption |]. subst s1.
      rewrite turn_checkGameOver, turnCount_checkGameOver. simpl.
      rewrite Hturn. destruct isPlayer; simpl; repeat split; discriminate.
Qed.

Lemma C7_turn_order_witness :
  useTool turnBased 3 "strike" false fresh = (Failure (Msg "Not your turn"), fresh) /\
  (turn (useTool turnBased 3 "strike" true fresh).2 = SBot /\
   turnCount (useTool turnBased 3 "strike" true fresh).2 = 1) /\
  (turn (useTool turnBased 6 "strike" false
           (useTool turnBased 3 "strike" true fresh).2).2 = SPlayer /\
   turnCount (useTool turnBased 6 "strike" false
                (useTool turnBased 3 "strike" true fresh).2).2 = 1 + 1).
Proof.
  split; [| split].
  - apply (C7_turn_order turnBased 3 "strike" false fresh eq_refl eq_refl).
    discriminate.
  - destruct (C7_turn_order turnBased 3 "strike" true fresh eq_refl eq_refl)
      as [_ Hcast].
    destruct Hcast as (_ & Hturn & _ & Hcount); [vm_compute; reflexivity .. |].
    split; [exact Hturn | exact Hcount].
  - destruct (C7_turn_order turnBased 6 "strike" false
                (useTool turnBased 3 "strike" true fresh).2 eq_refl)
      as [_ Hcast]; [vm_compute; reflexivity |].
    destruct Hcast as (_ & Hturn & _ & Hcount); [vm_compute; reflexivity .. |].
    split; [exact Hturn | exact Hcount].
Defined.

(** ** Validation order *)

Lemma assoc_get_In {A} key (entries : list (string * A)) v :
  assoc_get key entries = Some v -> In (key, v) entries.
Proof.
  induction entries as [| [k w] rest IH]; simpl; [discriminate |].
  destruct (String.eqb_spec k key) as [-> | Hne].
  - intros [= ->]. now left.
  - intros H. right. now apply IH.
Qed.


(** X20: for a key that is a catalog key, or that is neither a catalog key
    nor a name inherited from [Object.prototype], [canUseTool] answers as
    the checks taken in this order do: missing tool ("Tool not found"); key
    "dodge" while dodging is disabled ("Dodging is disabled"); mana below
    the mana cost ("Not enough mana"); a cooldown entry above 0 (the
    cooldown reason, with the remaining value); valid otherwise, an absent
    cooldown entry counting as 0. The reason given is that of the first
    check that fails. *)
Theorem canUseTool_checks_in_order settings entity toolKey :
  let answer := canUseTool settings entity toolKey in
  let unit := if isRealTime settings then "s" else " turns" in
  ((forall t, ~ In (toolKey, t) TOOLS) -> inherited toolKey = false ->
   answer = Invalid (Msg "Tool not found")) /\
  (forall t, In (toolKey, t) TOOLS ->
     (toolKey = "dodge" -> dodgingEnabled settings = false ->
      answer = Invalid (Msg "Dodging is disabled")) /\
     (toolKey <> "dodge" \/ dodgingEnabled settings = true ->
        (mana entity < manaCost t -> answer = Invalid (Msg "Not enough mana")) /\
        (manaCost t <= mana entity ->
           (forall c, cooldowns entity !! toolKey = Some c -> (0 < c)%Qc ->
                      answer = Invalid (MsgCooldown c unit)) /\
           (forall c, cooldowns entity !! toolKey = Some c -> (c ≤ 0)%Qc ->
                      answer = Valid) /\
           (cooldowns entity !! toolKey = None -> answer = Valid)))).
Proof.
  intros answer unit. subst answer unit. unfold canUseTool, TOOLS_read. split.
  - intros Habsent Hplain.
    destruct (TOOLS_get toolKey) as [t |] eqn:Hget.
    + destruct (Habsent t). now apply assoc_get_In.
    + now rewrite Hplain.
  - intros t Hin. rewrite (TOOLS_get_In _ _ Hin). cbv beta iota. split.
    + intros -> ->. reflexivity.
    + intros Hon.
      replace (String.eqb toolKey "dodge" && negb (dodgingEnabled settings)) with false.
      2:{ destruct Hon as [Hne | ->]; [| now rewrite andb_false_r].
          apply String.eqb_neq in Hne. now rewrite Hne. }
      split.
      * intros Hlow. apply Z.ltb_lt in Hlow. now rewrite Hlow.
      * intros Hcovers. apply Z.ltb_ge in Hcovers. rewrite Hcovers.
        split; [| split].
        -- intros c -> Hpos. cbv zeta.
           change (default 0%Qc (Some c)) with c. now rewrite decide_True.
        -- intros c -> Hzero. cbv zeta.
           change (default 0%Qc (Some c)) with c.
           rewrite decide_False; [reflexivity |]. now apply Qcle_not_lt.
        -- intros ->. cbv zeta.
           change (default 0%Qc (@None Qc)) with 0%Qc. now rewrite decide_False.
Qed.

Lemma canUseTool_checks_in_order_witness :
  canUseTool turnBased (initialEntity 0) "fire blast" = Invalid (Msg "Tool not found") /\
  canUseTool turnBased (set_mana 0 (initialEntity 0)) "dodge"
  = Invalid (Msg "Dodging is disabled") /\
  canUseTool realTime (set_mana 0 (player finished)) "fireball"
  = Invalid (Msg "Not enough mana") /\
  canUseTool realTime (player finished) "strike"
  = Invalid (MsgCooldown (Qc_of_Z 1) "s") /\
  canUseTool realTime (player finished) "iceball" = Valid.
Proof.
  assert (Hcd : cooldowns (player finished) !! "strike" = Some (Qc_of_Z 1))
    by (apply lookup_Qc_of_Z; vm_compute; reflexivity).
  assert (Hfire : In ("fireball",
                      mkTool "Fireball" ["fireball"; "fire ball"; "fire"] attack 30 3
                             [EDamage 40] "Cast a powerful fire blast") TOOLS)
    by (unfold TOOLS; simpl; tauto).
  split; [| split; [| split; [| split]]].
  - apply (canUseTool_checks_in_order turnBased (initialEntity 0) "fire blast");
      [| reflexivity].
    intros t H. catalog_cases H.
  - apply (canUseTool_checks_in_order turnBased (set_mana 0 (initialEntity 0)) "dodge")
      with (t := mkTool "Dodge" ["dodge"; "evade"; "avoid"; "jump"] defense 10 2
                        [EDodge 1] "Jump to evade the next attack");
      [unfold TOOLS; simpl; tauto | reflexivity | reflexivity].
  - apply (canUseTool_checks_in_order realTime (set_mana 0 (player finished)) "fireball")
      with (t := mkTool "Fireball" ["fireball"; "fire ball"; "fire"] attack 30 3
                        [EDamage 40] "Cast a powerful fire blast");
      [exact Hfire | left; discriminate | simpl; lia].
  - apply (canUseTool_checks_in_order realTime (player finished) "strike")
      with (t := mkTool "Strike" ["strike"; "hit"; "attack"] attack 10 1
                        [EDamage 15] "Quick melee attack") (c := Qc_of_Z 1);
      [unfold TOOLS; simpl; tauto | left; discriminate | vm_compute; discriminate
      | exact Hcd | reflexivity].
  - apply (canUseTool_checks_in_order realTime (player finished) "iceball")
      with (t := mkTool "Ice Ball" ["ice ball"; "iceball"; "ice"] attack 20 2
                        [EDamage 25; ESlow 1 (Q2Qc (1 # 2))]
                        "Launch a freezing projectile");
      [unfold TOOLS; simpl; tauto | left; discriminate | vm_compute; discriminate
      | vm_compute; reflexivity].
Defined.

(** ** The dodge flag *)

Lemma isDodging_upkeep e : isDodging (upkeep e) = false.
Proof. unfold upkeep. simpl. destruct (isDodging e) eqn:H; simpl; congruence. Qed.

Lemma hp_upkeep e : hp (upkeep e) = hp e.
Proof. unfold upkeep. simpl. destruct (isDodging e); reflexivity. Qed.

Lemma isDodging_tick now e : isDodging (tick now e) = isDodging e.
Proof. unfold tick. destruct (1000 <=? now - lastManaRegen e); reflexivity. Qed.

Lemma isDodging_endTurn side s : isDodging (entityOf side (endTurn s)) = false.
Proof. destruct side; apply isDodging_upkeep. Qed.

Lemma isDodging_updateRealTime side now s :
  isDodging (entityOf side (updateRealTime now s)) = isDodging (entityOf side s).
Proof. destruct side; apply isDodging_tick. Qed.

(** C3 (as amended): for an entity whose dodge flag is set, a damage effect
    applied against it yields the result [{type: "damage", value: 0,
    dodged: true}], takes nothing from its hp or shield, and clears the flag;
    an effect of any other kind applied against it leaves it as it is, and
    no effect it casts itself clears the flag; [endTurn] clears the flag
    unconditionally; [updateRealTime] does not clear it, so in real-time
    mode the flag stays set until a damage effect arrives. *)
Theorem C3_dodge_flag (s : State) (side : Side) (other : Entity) :
  isDodging (entityOf side s) = true ->
  let e := entityOf side s in
  (forall value,
      applyEffect (EDamage value) other e = (RDodged, other, set_isDodging false e) /\
      dodged (applyEffect (EDamage value) other e).1.1 = true /\
      hp (applyEffect (EDamage value) other e).2 = hp e /\
      shield (applyEffect (EDamage value) other e).2 = shield e /\
      isDodging (applyEffect (EDamage value) other e).2 = false) /\
  (forall effect,
      (forall value, effect <> EDamage value) ->
      (applyEffect effect other e).2 = e) /\
  (forall effect, isDodging (applyEffect effect e other).1.2 = true) /\
  isDodging (entityOf side (endTurn s)) = false /\
  (forall now, isDodging (entityOf side (updateRealTime now s)) = true).
Proof.
  intros Hflag e. fold e in Hflag. repeat split.
  - simpl. now rewrite Hflag.
  - simpl. now rewrite Hflag.
  - simpl. now rewrite Hflag.
  - simpl. now rewrite Hflag.
  - simpl. now rewrite Hflag.
  - intros effect Hkind. destruct effect; try reflexivity.
    now destruct (Hkind value).
  - intros effect. destruct effect; simpl; try assumption; try reflexivity.
    destruct (isDodging other); [assumption |].
    destruct (0 <? shield other); assumption.
  - apply isDodging_endTurn.
  - intros now. now rewrite isDodging_updateRealTime.
Qed.

Lemma C3_dodge_flag_witness :
  applyEffect (EDamage 40) (bot evading) (player evading)
    = (RDodged, bot evading, set_isDodging false (player evading)) /\
  isDodging (player (endTurn evading)) = false /\
  isDodging (player (updateRealTime 5000 evading)) = true.
Proof.
  destruct (C3_dodge_flag evading SPlayer (bot evading) eq_refl)
    as (Hdamage & _ & _ & Hturn & Htick).
  split; [apply (Hdamage 40) |]. split; [exact Hturn | exact (Htick 5000)].
Defined.

(** C3 fails as stated: [evading] is a state a real-time match reaches with
    the player's dodge flag set, and a tick leaves the flag set. *)
Lemma C3_tick_keeps_dodge_flag :
  reachable realTime evading /\
  isRealTime realTime = true /\
  isDodging (player evading) = true /\
  isDodging (player (updateRealTime 5000 evading)) = true.
Proof.
  split; [apply reach_useTool, reach_init |].
  repeat split; vm_compute; reflexivity.
Qed.

(** ** Shield before hp *)

Lemma applyEffect_damage_undodged value caster target :
  isDodging target = false -> 0 <= shield target -> 0 <= hp target -> 0 <= value ->
  let absorbed := Z.min (shield target) value in
  let target' := (applyEffect (EDamage value) caster target).2 in
  shield target' = shield target - absorbed /\
  0 <= shield target' /\
  hp target' = Z.max 0 (hp target - (value - absorbed)) /\
  (value <= shield target -> hp target' = hp target).
Proof.
  intros Hflag Hshield Hhp Hvalue. simpl. rewrite Hflag.
  destruct (Z.ltb_spec 0 (shield target)); simpl.
  - destruct (Z.ltb_spec 0 (value - Z.min (shield target) value)); simpl;
      repeat split; intros; lia.
  - repeat split; intros; lia.
Qed.

(** C6 (as amended): for an entity with the dodge flag unset, no shield and
    at least 20 hp, [shield{30}] followed by [damage{25}] leaves its shield
    at 5 and its hp as it was, and a second [damage{25}] leaves its shield at
    0 and its hp lower by exactly 20. In general a damage effect against an
    entity that is not dodging takes [min(shield, amount)] from the shield
    first, never makes the shield negative, and takes only the remainder
    from hp, floored at 0. *)
Theorem C6_shield_before_hp (e other : Entity) (duration : Z) :
  isDodging e = false -> shield e = 0 -> 20 <= hp e ->
  let e1 := (applyEffect (EShield 30 duration) e other).1.2 in
  let e2 := (applyEffect (EDamage 25) other e1).2 in
  let e3 := (applyEffect (EDamage 25) other e2).2 in
  (shield e2 = 5 /\ hp e2 = hp e) /\
  (shield e3 = 0 /\ hp e3 = hp e - 20) /\
  (forall value caster target,
      isDodging target = false ->
      0 <= shield target -> 0 <= hp target -> 0 <= value ->
      let absorbed := Z.min (shield target) value in
      let target' := (applyEffect (EDamage value) caster target).2 in
      shield target' = shield target - absorbed /\
      0 <= shield target' /\
      hp target' = Z.max 0 (hp target - (value - absorbed)) /\
      (value <= shield target -> hp target' = hp target)).
Proof.
  intros Hflag Hshield Hhp. destruct e; simpl in *; subst; simpl.
  split; [split; lia |]. split; [split; lia |].
  intros value caster target. apply applyEffect_damage_undodged.
Qed.

Lemma C6_shield_before_hp_witness :
  let e := initialEntity 0 in
  let e1 := (applyEffect (EShield 30 2) e e).1.2 in
  let e2 := (applyEffect (EDamage 25) e e1).2 in
  let e3 := (applyEffect (EDamage 25) e e2).2 in
  (shield e2 = 5 /\ hp e2 = 100) /\ (shield e3 = 0 /\ hp e3 = 80).
Proof.
  destruct (C6_shield_before_hp (initialEntity 0) (initialEntity 0) 2
              eq_refl eq_refl) as (H2 & H3 & _).
  - simpl. lia.
  - split; [exact H2 | exact H3].
Defined.

(** C6 fails as stated: an entity that is not dodging and already carries a
    shield of 30 ends [shield{30}], [damage{25}] with a shield of 35, and one
    with 10 hp and no shield loses 10 hp, not 20, to the second
    [damage{25}]. *)
Lemma C6_prior_shield_or_low_hp :
  isDodging shielded = false /\
  shield (applyEffect (EDamage 25) shielded
            (applyEffect (EShield 30 2) shielded shielded).1.2).2 = 35 /\
  isDodging wounded = false /\
  (let e1 := (applyEffect (EShield 30 2) wounded wounded).1.2 in
   let e2 := (applyEffect (EDamage 25) wounded e1).2 in
   let e3 := (applyEffect (EDamage 25) wounded e2).2 in
   hp wounded = 10 /\ hp e3 = 0).
Proof. repeat split. Qed.

(** ** Dodge in turn-based mode *)

Lemma applyEffect_target_flag effect caster target :
  isDodging target = false ->
  isDodging (applyEffect effect caster target).2 = false /\
  dodged (applyEffect effect caster target).1.1 = false.
Proof.
  intros Hflag. destruct effect; simpl; try tauto.
  rewrite Hflag. destruct (0 <? shield target); simpl; [| tauto].
  destruct (0 <? value - Z.min (shield target) value); simpl; tauto.
Qed.

Lemma applyEffects_target_flag effs : forall caster target,
  isDodging target = false ->
  isDodging (applyEffects effs caster target).2 = false /\
  Forall (fun r => dodged r = false) (applyEffects effs caster target).1.1.
Proof.
  induction effs as [| effect rest IH]; intros caster target Hflag; simpl.
  - split; [assumption | constructor].
  - destruct (applyEffect_target_flag effect caster target Hflag) as [Ht Hr].
    destruct (applyEffect effect caster target) as [[result c1] t1]; simpl in *.
    destruct (IH c1 t1 Ht) as [Ht' Hrs].
    destruct (applyEffects rest c1 t1) as [[rs c2] t2]; simpl in *.
    split; [assumption | now constructor].
Qed.

Lemma applyEffects_caster_flag effs : forall caster target,
  forallb (fun effect => negb (sets_dodge effect)) effs = true ->
  isDodging (applyEffects effs caster target).1.2 = isDodging caster.
Proof.
  induction effs as [| effect rest IH]; intros caster target Hall; simpl;
    [reflexivity |].
  simpl in Hall. apply andb_prop in Hall as [Heffect Hrest].
  specialize (IH (applyEffect effect caster target).1.2
                 (applyEffect effect caster target).2 Hrest).
  assert (Hc : isDodging (applyEffect effect caster target).1.2 = isDodging caster).
  { destruct effect; simpl in *; try reflexivity; try discriminate.
    destruct (isDodging target); [reflexivity |].
    destruct (0 <? shield target); reflexivity. }
  destruct (applyEffect effect caster target) as [[result c1] t1]; simpl in *.
  destruct (applyEffects rest c1 t1) as [[rs c2] t2]; simpl in *.
  congruence.
Qed.

Lemma applyEffects_hp effs : forall caster target,
  forallb (fun effect => negb (touches_hp effect)) effs = true ->
  hp (applyEffects effs caster target).1.2 = hp caster /\
  hp (applyEffects effs caster target).2 = hp target.
Proof.
  induction effs as [| effect rest IH]; intros caster target Hall; simpl;
    [tauto |].
  simpl in Hall. apply andb_prop in Hall as [Heffect Hrest].
  specialize (IH (applyEffect effect caster target).1.2
                 (applyEffect effect caster target).2 Hrest).
  assert (Hc : hp (applyEffect effect caster target).1.2 = hp caster /\
               hp (applyEffect effect caster target).2 = hp target).
  { destruct effect; simpl in *; try tauto; discriminate. }
  destruct (applyEffect effect caster target) as [[result c1] t1]; simpl in *.
  destruct (applyEffects rest c1 t1) as [[rs c2] t2]; simpl in *.
  destruct IH, Hc. split; congruence.
Qed.

(** A catalog tool either sets no dodge flag or leaves hp alone. *)
Lemma TOOLS_dodge_or_hp key t :
  In (key, t) TOOLS ->
  forallb (fun effect => negb (sets_dodge effect)) (effects t) = true \/
  forallb (fun effect => negb (touches_hp effect)) (effects t) = true.
Proof. intros H. catalog_cases H; simpl; tauto. Qed.

Lemma checkGameOver_cases s :
  (0 < hp (player s) /\ 0 < hp (bot s) /\ checkGameOver s = s) \/
  (gameOver (checkGameOver s) = true /\
   player (checkGameOver s) = player s /\ bot (checkGameOver s) = bot s /\
   (hp (player s) <= 0 \/ hp (bot s) <= 0)).
Proof.
  unfold checkGameOver.
  destruct (Z.leb_spec (hp (player s)) 0); [right; simpl; tauto |].
  destruct (Z.leb_spec (hp (bot s)) 0); [right; simpl; tauto |].
  left. tauto.
Qed.

Lemma useTool_turn_based settings now toolInput isPlayer s :
  isRealTime settings = false ->
  no_dodge s -> alive_unless_over s ->
  no_dodge (useTool settings now toolInput isPlayer s).2 /\
  alive_unless_over (useTool settings now toolInput isPlayer s).2 /\
  Forall (fun r => dodged r = false)
         (resultsOf (useTool settings now toolInput isPlayer s).1).
Proof.
  intros Hmode Hflags Halive. unfold useTool. rewrite Hmode.
  assert (Hfail : forall reason,
             no_dodge (Failure reason, s).2 /\ alive_unless_over (Failure reason, s).2 /\
             Forall (fun r => dodged r = false) (resultsOf (Failure reason, s).1))
    by (intros reason; simpl; split; [| split]; [assumption .. | constructor]).
  destruct (gameOver s) eqn:Hover; [apply Hfail |].
  destruct (_ && _); [apply Hfail |].
  destruct (findTool toolInput) as [[key t] |] eqn:Hfind; [| apply Hfail].
  destruct (canUseTool settings _ key); [| apply Hfail].
  clear Hfail.
  pose proof (TOOLS_dodge_or_hp _ _ (findTool_In _ _ _ Hfind)) as Hkind.
  destruct Hflags as [Hfp Hfb]. destruct (Halive Hover) as [Hhp Hhb].
  set (c0 := if isPlayer then player s else bot s) in *.
  set (t0 := if isPlayer then bot s else player s) in *.
  assert (Hfc : isDodging c0 = false) by (subst c0; now destruct isPlayer).
  assert (Hft : isDodging t0 = false) by (subst t0; now destruct isPlayer).
  assert (Hhc : 0 < hp c0) by (subst c0; now destruct isPlayer).
  assert (Hht : 0 < hp t0) by (subst t0; now destruct isPlayer).
  set (c1 := set_cooldowns _ _).
  destruct (applyEffects_target_flag (effects t) c1 t0 Hft) as [Hft2 Hrs].
  assert (Hc2 : isDodging (applyEffects (effects t) c1 t0).1.2 = false \/
                (0 < hp (applyEffects (effects t) c1 t0).1.2 /\
                 0 < hp (applyEffects (effects t) c1 t0).2)).
  { destruct Hkind as [Hnd | Hnh].
    - left. now rewrite applyEffects_caster_flag.
    - right. destruct (applyEffects_hp (effects t) c1 t0 Hnh) as [-> ->].
      split; assumption. }
  destruct (applyEffects (effects t) c1 t0) as [[rs c2] t2]; simpl in Hft2, Hrs, Hc2.
  set (s1 := mkState _ _ _ _ _ _ _).
  simpl negb. simpl andb. cbn [fst snd resultsOf].
  split; [| split; [| exact Hrs]].
  - destruct (checkGameOver_cases s1) as [(_ & _ & ->) | (Hov & Hp & Hb & Hdead)].
    + subst s1; simpl. split; apply isDodging_upkeep.
    + rewrite Hov. simpl. unfold no_dodge. rewrite Hp, Hb.
      destruct Hc2 as [Hfc2 | [Hhc2 Hht2]].
      * subst s1; simpl. destruct isPlayer; split; assumption.
      * exfalso. subst s1; simpl in Hdead. destruct isPlayer; lia.
  - destruct (checkGameOver_cases s1) as [(Hp & Hb & ->) | (Hov & _)].
    + subst s1; unfold alive_unless_over; simpl. intros _.
      rewrite !hp_upkeep. simpl in Hp, Hb. split; assumption.
    + rewrite Hov. simpl. intros Hopen. congruence.
Qed.

Lemma hp_tick now e : hp (tick now e) = hp e.
Proof. unfold tick. destruct (1000 <=? now - lastManaRegen e); reflexivity. Qed.

Lemma reachable_turn_based settings s :
  isRealTime settings = false ->
  reachable settings s -> no_dodge s /\ alive_unless_over s.
Proof.
  intros Hmode. induction 1 as [| s now toolInput isPlayer _ [Hf Ha]
                                | s _ [Hf Ha] | s now _ [Hf Ha] | ].
  - split; [split; reflexivity | intros _; simpl; lia].
  - destruct (useTool_turn_based settings now toolInput isPlayer s Hmode Hf Ha)
      as (Hf' & Ha' & _).
    split; assumption.
  - split; [split; apply isDodging_upkeep |].
    unfold alive_unless_over, endTurn. cbn [gameOver player bot].
    rewrite !hp_upkeep. exact Ha.
  - split.
    + destruct Hf as [Hp Hb].
      split; [exact (eq_trans (isDodging_tick now _) Hp)
             | exact (eq_trans (isDodging_tick now _) Hb)].
    + unfold alive_unless_over, updateRealTime. cbn [gameOver player bot].
      rewrite !hp_tick. exact Ha.
  - split; [split; reflexivity | intros _; simpl; lia].
Qed.

(** C10: in turn-based mode, in whatever state a run of the engine has
    reached, after a [useTool] call has returned (with a success or with a
    failure) neither entity's dodge flag is set, and no effect result of the
    call records a dodge: a flag that a dodge cast sets is cleared by the
    upkeep of the same call, before any damage effect can meet it. *)
Theorem C10_turn_based_dodge_never_lasts settings s now toolInput isPlayer :
  isRealTime settings = false ->
  reachable settings s ->
  no_dodge (useTool settings now toolInput isPlayer s).2 /\
  Forall (fun r => dodged r = false)
         (resultsOf (useTool settings now toolInput isPlayer s).1).
Proof.
  intros Hmode Hreach.
  destruct (reachable_turn_based settings s Hmode Hreach) as [Hf Ha].
  destruct (useTool_turn_based settings now toolInput isPlayer s Hmode Hf Ha)
    as (Hf' & _ & Hrs).
  split; assumption.
Qed.

Lemma C10_turn_based_dodge_never_lasts_witness :
  success (useTool turnBasedDodging 4 "dodge" true fresh).1 = true /\
  no_dodge (useTool turnBasedDodging 4 "dodge" true fresh).2 /\
  Forall (fun r => dodged r = false)
         (resultsOf (useTool turnBasedDodging 4 "dodge" true fresh).1).
Proof.
  split; [vm_compute; reflexivity |].
  apply (C10_turn_based_dodge_never_lasts turnBasedDodging fresh 4 "dodge" true).
  - reflexivity.
  - apply reach_init.
Defined.

(** ** The bot's decision *)

Lemma valid_true c : valid c = true <-> c = Valid.
Proof. destruct c; simpl; split; congruence. Qed.

Lemma availableTools_usable settings s key t :
  In (key, t) (availableTools settings s) <-> usable settings s key t.
Proof.
  unfold availableTools, usable. rewrite filter_In. simpl.
  now rewrite valid_true.
Qed.

Lemma findKey_In key l kt : findKey key l = Some kt -> In kt l.
Proof. intros H. now apply find_some in H. Qed.

Lemma insertSorted_In x y l : In x (insertSorted y l) -> x = y \/ In x l.
Proof.
  induction l as [| z rest IH]; simpl.
  - intros [-> | []]. now left.
  - destruct (compareDamage y z <=? 0); simpl.
    + intros [-> | H]; [now left | now right].
    + intros [-> | H]; [right; now left |].
      destruct (IH H); [now left | right; now right].
Qed.

Lemma sortByDamage_In x l : In x (sortByDamage l) -> In x l.
Proof.
  induction l as [| y rest IH]; simpl; [tauto |].
  intros H. apply insertSorted_In in H as [-> | H]; [now left | right; auto].
Qed.

Lemma head_In {A} (l : list A) x : head l = Some x -> In x l.
Proof. destruct l; simpl; [discriminate | intros [= ->]; now left]. Qed.

Lemma orElse_elim {A} (P : A -> Prop) (chosen next : option A) :
  (forall y, chosen = Some y -> P y) -> (forall y, next = Some y -> P y) ->
  forall y, orElse chosen next = Some y -> P y.
Proof. destruct chosen; simpl; auto. Qed.

Lemma orElse_is_Some {A} (chosen next : option A) :
  is_Some next -> is_Some (orElse chosen next).
Proof. destruct chosen; simpl; eauto. Qed.

(** [Math.floor(r * n)] is an index below [n] when [r] lies in [[0, 1)]. *)
Lemma floor_index (r : Qc) (n : Z) :
  (0 ≤ r)%Qc -> (r < 1)%Qc -> 0 < n ->
  0 <= Qfloor (r * Qc_of_Z n)%Qc < n.
Proof.
  intros H0 H1 Hn.
  assert (Hx : (this (r * Qc_of_Z n)%Qc == this r * inject_Z n)%Q)
    by (simpl; apply Qred_correct).
  rewrite Hx. split.
  - rewrite <- (Qfloor_Z 0). apply Qfloor_resp_le.
    apply Qmult_le_0_compat; [exact H0 |].
    change (inject_Z 0 <= inject_Z n)%Q. rewrite <- Zle_Qle. lia.
  - rewrite Zlt_Qlt.
    apply Qle_lt_trans with (this r * inject_Z n)%Q; [apply Qfloor_le |].
    rewrite <- (Qmult_1_l (inject_Z n)) at 2.
    apply Qmult_lt_compat_r; [| exact H1].
    change (inject_Z 0 < inject_Z n)%Q. now rewrite <- Zlt_Qlt.
Qed.

Example bot_opens_with_lightning : makeDecision turnBased 0 0 0 fresh = Move "Lightning".
Proof. vm_compute. reflexivity. Qed.

(** C9: for every state and every outcome of the random draws (the draw
    that indexes the fallback lying in [[0, 1)], as [Math.random] gives it),
    [makeDecision] returns [null] exactly when no catalog tool passes
    [canUseTool] for the bot, and when some tool does it returns the display
    name of a catalog tool that passes [canUseTool] for the bot. *)
Theorem C9_bot_decision settings (r1 r2 r3 : Qc) s :
  (0 ≤ r3)%Qc -> (r3 < 1)%Qc ->
  (makeDecision settings r1 r2 r3 s = NoMove <->
   forall key t, ~ usable settings s key t) /\
  ((exists key t, usable settings s key t) ->
   exists key t,
     usable settings s key t /\ makeDecision settings r1 r2 r3 s = Move (name t)).
Proof.
  intros H0 H1. unfold makeDecision.
  set (available := availableTools settings s).
  destruct available as [| first others] eqn:Havail.
  - rewrite bool_decide_eq_true_2 by reflexivity. split.
    + split; [| reflexivity]. intros _ key t Huse.
      apply availableTools_usable in Huse. fold available in Huse.
      rewrite Havail in Huse. destruct Huse.
    + intros (key & t & Huse).
      apply availableTools_usable in Huse. fold available in Huse.
      rewrite Havail in Huse. destruct Huse.
  - rewrite bool_decide_eq_false_2 by discriminate.
    rewrite <- Havail.
    match goal with
    | |- context [match ?c with Some t => Move (name t.2) | None => Fault end] =>
        set (chosen := c)
    end.
    assert (Hsome : is_Some chosen).
    { subst chosen. apply orElse_is_Some.
      pose proof (floor_index r3 (Z.of_nat (length available)) H0 H1) as Hidx.
      assert (Hlen : 0 < Z.of_nat (length available))
        by (rewrite Havail; simpl; lia).
      specialize (Hidx Hlen).
      destruct (Z.ltb_spec (Qfloor (r3 * Qc_of_Z (Z.of_nat (length available)))%Qc) 0);
        [lia |].
      apply lookup_lt_is_Some. lia. }
    destruct Hsome as [[key t] Hchosen].
    assert (Hin : In (key, t) available).
    { revert Hchosen. generalize (key, t). subst chosen.
      repeat (apply (orElse_elim (fun y => In y available))); intros y Hy.
      - destruct (_ && _); [now apply findKey_In in Hy | discriminate].
      - destruct (_ && _); [now apply findKey_In in Hy | discriminate].
      - destruct (_ && _); [now apply findKey_In in Hy | discriminate].
      - apply head_In, sortByDamage_In in Hy.
        now apply filter_In in Hy as [Hy _].
      - destruct (_ <? 0); [discriminate |].
        apply list_elem_of_In. eapply list_elem_of_lookup_2. exact Hy. }
    rewrite Hchosen. simpl.
    apply availableTools_usable in Hin.
    split.
    + split; [discriminate |]. intros Hnone. destruct (Hnone key t Hin).
    + intros _. exists key, t. split; [exact Hin | reflexivity].
Qed.

Lemma C9_bot_decision_witness :
  (makeDecision turnBased 0 0 0 fresh = NoMove <->
   forall key t, ~ usable turnBased fresh key t) /\
  ((exists key t, usable turnBased fresh key t) ->
   exists key t,
     usable turnBased fresh key t /\
     makeDecision turnBased 0 0 0 fresh = Move (name t)).
Proof.
  apply (C9_bot_decision turnBased 0%Qc 0%Qc 0%Qc fresh).
  - apply Qcle_refl.
  - reflexivity.
Defined.

(** * Further properties of the engine and the bot *)

(** ** Tool lookup *)

Lemma lower_char_idem c : lower_char (lower_char c) = lower_char c.
Proof. destruct c as [[] [] [] [] [] [] [] []]; reflexivity. Qed.

Lemma is_space_lower_char c : is_space (lower_char c) = is_space c.
Proof. destruct c as [[] [] [] [] [] [] [] []]; reflexivity. Qed.

Lemma toLowerCase_idem s : toLowerCase (toLowerCase s) = toLowerCase s.
Proof. induction s as [| c rest IH]; simpl; [reflexivity |]. now rewrite lower_char_idem, IH. Qed.

Lemma toLowerCase_app a b : toLowerCase (a ++ b) = toLowerCase a ++ toLowerCase b.
Proof. induction a as [| c rest IH]; simpl; [reflexivity |]. now rewrite IH. Qed.

Lemma trimStart_toLowerCase s : trimStart (toLowerCase s) = toLowerCase (trimStart s).
Proof.
  induction s as [| c rest IH]; simpl; [reflexivity |].
  rewrite is_space_lower_char. destruct (is_space c); [exact IH | reflexivity].
Qed.

Lemma trimEnd_toLowerCase s : trimEnd (toLowerCase s) = toLowerCase (trimEnd s).
Proof.
  induction s as [| c rest IH]; simpl; [reflexivity |].
  rewrite IH, is_space_lower_char.
  destruct (trimEnd rest); simpl; [destruct (is_space c) |]; reflexivity.
Qed.

Lemma trim_toLowerCase s : trim (toLowerCase s) = toLowerCase (trim s).
Proof. unfold trim. now rewrite trimStart_toLowerCase, trimEnd_toLowerCase. Qed.

Lemma trimEnd_cons c s :
  trimEnd (String c s) =
  match trimEnd s with
  | EmptyString => if is_space c then EmptyString else String c EmptyString
  | kept => String c kept
  end.
Proof. reflexivity. Qed.

Lemma trimStart_idem s : trimStart (trimStart s) = trimStart s.
Proof.
  induction s as [| c rest IH]; simpl; [reflexivity |].
  destruct (is_space c) eqn:Hc; [exact IH | simpl; now rewrite Hc].
Qed.

Lemma trimEnd_idem s : trimEnd (trimEnd s) = trimEnd s.
Proof.
  induction s as [| c rest IH]; simpl; [reflexivity |].
  destruct (trimEnd rest) as [| k kept] eqn:Hrest.
  - destruct (is_space c) eqn:Hc; simpl; [reflexivity | now rewrite Hc].
  - rewrite trimEnd_cons, IH. reflexivity.
Qed.

Lemma trimStart_trimEnd s : trimStart s = s -> trimStart (trimEnd s) = trimEnd s.
Proof.
  destruct s as [| c rest]; simpl; [reflexivity |].
  destruct (is_space c) eqn:Hc.
  - intros H. exfalso.
    assert (Hlen : (String.length (trimStart rest) <= String.length rest)%nat).
    { clear. induction rest as [| a r IH]; simpl; [lia |].
      destruct (is_space a); simpl; lia. }
    rewrite H in Hlen. simpl in Hlen. lia.
  - intros _. destruct (trimEnd rest); simpl; now rewrite Hc.
Qed.

Lemma trim_idem s : trim (trim s) = trim s.
Proof.
  unfold trim. rewrite trimStart_trimEnd by apply trimStart_idem.
  apply trimEnd_idem.
Qed.

Lemma normalize_idem input : normalize (normalize input) = normalize input.
Proof.
  unfold normalize. now rewrite trim_toLowerCase, trim_idem, <- trim_toLowerCase,
    toLowerCase_idem.
Qed.

Lemma trimEnd_app_space s c : is_space c = true -> trimEnd (s ++ String c "") = trimEnd s.
Proof.
  intros Hc. induction s as [| a rest IH]; simpl.
  - now rewrite Hc.
  - now rewrite IH.
Qed.

Lemma trim_app_space s c : is_space c = true -> trim (s ++ String c "") = trim s.
Proof.
  intros Hc. unfold trim. induction s as [| a rest IH]; simpl.
  - now rewrite Hc.
  - destruct (is_space a); [exact IH |].
    change (String a (rest ++ String c "")) with (String a rest ++ String c "").
    now apply trimEnd_app_space.
Qed.

(** X1: [findTool] depends on its input only through the normalised text,
    and normalising is idempotent: lowering the case of an input, trimming
    it, or padding it with a white-space character on either side does not
    change what it resolves to. *)
Theorem findTool_ignores_case_and_padding input :
  findTool (toLowerCase input) = findTool input /\
  findTool (trim input) = findTool input /\
  findTool (normalize input) = findTool input /\
  forall c, is_space c = true ->
            findTool (String c input) = findTool input /\
            findTool (input ++ String c "") = findTool input.
Proof.
  unfold findTool. split; [now rewrite toLowerCase_idem |].
  split; [now rewrite <- trim_toLowerCase, trim_idem |].
  split; [now rewrite (normalize_idem input : trim (toLowerCase (normalize input)) = _) |].
  intros c Hc. split.
  - unfold trim. simpl. now rewrite is_space_lower_char, Hc.
  - rewrite toLowerCase_app. simpl toLowerCase.
    rewrite trim_app_space; [reflexivity |]. now rewrite is_space_lower_char.
Qed.

Lemma findTool_ignores_case_and_padding_witness :
  findTool (String " " "Fire Ball") = findTool "Fire Ball" /\
  findTool ("Fire Ball" ++ String " " "") = findTool "Fire Ball".
Proof.
  destruct (findTool_ignores_case_and_padding "Fire Ball") as (_ & _ & _ & Hpad).
  apply (Hpad " "%char). reflexivity.
Defined.

Lemma find_alias_Some normalized entries key t :
  find_alias normalized entries = Some (key, t) ->
  In (key, t) entries /\ In normalized (aliases t).
Proof.
  induction entries as [| [k v] rest IH]; simpl; [discriminate |].
  destruct (existsb _ (aliases v)) eqn:Hex.
  - intros [= -> ->]. split; [now left |].
    apply existsb_exists in Hex as (alias & Hin & Heq).
    apply String.eqb_eq in Heq. now subst.
  - intros H. destruct (IH H). split; [now right | assumption].
Qed.

Lemma find_alias_own key t alias :
  In (key, t) TOOLS -> In alias (aliases t) -> find_alias alias TOOLS = Some (key, t).
Proof.
  intros H Halias. catalog_cases H; simpl in Halias;
    repeat (destruct Halias as [<- | Halias]; [reflexivity |]); destruct Halias.
Qed.

(** X2: [findTool] resolves an input to a catalog entry exactly when the
    normalised input is, in full, one of that entry's aliases (no prefix or
    fuzzy match); since no alias is shared by two entries, every alias
    resolves to its own tool, and the key found is the entry's catalog key. *)
Theorem findTool_exact_alias input key t :
  findTool input = Some (key, t) <->
  In (key, t) TOOLS /\ In (normalize input) (aliases t).
Proof.
  unfold findTool. fold (normalize input). split.
  - apply find_alias_Some.
  - intros [Hin Halias]. now apply find_alias_own.
Qed.

Lemma findTool_exact_alias_witness :
  In (normalize " SHOCK ") ["lightning"; "bolt"; "shock"] /\
  findTool " SHOCK "
  = Some ("lightning", mkTool "Lightning" ["lightning"; "bolt"; "shock"] attack 35 4
                              [EDamage 50] "Strike with lightning").
Proof.
  assert (Halias : In (normalize " SHOCK ") ["lightning"; "bolt"; "shock"])
    by (vm_compute; tauto).
  split; [exact Halias |].
  apply findTool_exact_alias. split; [| exact Halias].
  unfold TOOLS. simpl. tauto.
Defined.

(** ** Anatomy of a successful call *)

Lemma useTool_success settings now toolInput isPlayer s :
  success (useTool settings now toolInput isPlayer s).1 = true ->
  exists key t,
    findTool toolInput = Some (key, t) /\
    gameOver s = false /\
    (isRealTime settings = false -> turn s = sideOf isPlayer) /\
    canUseTool settings (entityOf (sideOf isPlayer) s) key = Valid /\
    let out := applyEffects (effects t) (pay key t (entityOf (sideOf isPlayer) s))
                            (entityOf (flip (sideOf isPlayer)) s) in
    useTool settings now toolInput isPlayer s
    = (Success (name t) out.1.1 (name t ++ " used!"),
       settle settings (recorded now key t isPlayer out s)).
Proof.
  unfold useTool.
  destruct (gameOver s) eqn:Hover; [discriminate |].
  destruct (negb (isRealTime settings) && _) eqn:Hturn; [discriminate |].
  destruct (findTool toolInput) as [[key t] |]; [| discriminate].
  destruct (canUseTool settings _ key) eqn:Hcan; [| discriminate].
  intros _. exists key, t.
  split; [reflexivity |]. split; [reflexivity |]. split.
  { intros Hmode. rewrite Hmode in Hturn. simpl in Hturn.
    apply negb_false_iff in Hturn. now apply bool_decide_eq_true_1 in Hturn. }
  split; [destruct isPlayer; exact Hcan |].
  unfold settle, recorded, pay.
  destruct isPlayer; cbn [sideOf flip entityOf];
    destruct (applyEffects _ _ _) as [[rs c2] t2]; rewrite Hover; reflexivity.
Qed.

Lemma useTool_failure settings now toolInput isPlayer s :
  success (useTool settings now toolInput isPlayer s).1 = false ->
  (useTool settings now toolInput isPlayer s).2 = s.
Proof.
  unfold useTool.
  destruct (gameOver s); [reflexivity |].
  destruct (_ && _); [reflexivity |].
  destruct (findTool toolInput) as [[key t] |]; [| reflexivity].
  destruct (canUseTool settings _ key); [| reflexivity].
  destruct (applyEffects _ _ _) as [[rs c2] t2]. discriminate.
Qed.

Lemma applyEffects_frame effs : forall caster target,
  frame (applyEffects effs caster target).1.2 = frame caster /\
  frame (applyEffects effs caster target).2 = frame target.
Proof.
  induction effs as [| effect rest IH]; intros caster target; simpl; [tauto |].
  assert (H1 : frame (applyEffect effect caster target).1.2 = frame caster /\
               frame (applyEffect effect caster target).2 = frame target).
  { destruct effect; simpl; try tauto.
    destruct (isDodging target); [tauto |].
    destruct (0 <? shield target); [| tauto].
    destruct (0 <? value - Z.min (shield target) value); tauto. }
  specialize (IH (applyEffect effect caster target).1.2
                 (applyEffect effect caster target).2).
  destruct (applyEffect effect caster target) as [[result c1] t1]; simpl in *.
  destruct (applyEffects rest c1 t1) as [[rs c2] t2]; simpl in *.
  destruct H1 as [<- <-]. exact IH.
Qed.

(** Effects with non-negative amounts only raise the caster's hp and shield
    and only lower the target's. *)
Lemma applyEffects_direction effs : forall caster target,
  Forall effect_ok effs ->
  hp caster <= maxHp caster -> 0 <= hp target ->
  let out := applyEffects effs caster target in
  (hp caster <= hp out.1.2 <= maxHp caster /\ shield caster <= shield out.1.2) /\
  (0 <= hp out.2 <= hp target /\ shield out.2 <= shield target).
Proof.
  induction effs as [| effect rest IH]; intros caster target Hall Hc Ht; simpl;
    [lia |].
  inversion Hall as [| ? ? He Hrest]; subst.
  assert (H1 : (hp caster <= hp (applyEffect effect caster target).1.2 <= maxHp caster /\
                shield caster <= shield (applyEffect effect caster target).1.2 /\
                maxHp (applyEffect effect caster target).1.2 = maxHp caster) /\
               (0 <= hp (applyEffect effect caster target).2 <= hp target /\
                shield (applyEffect effect caster target).2 <= shield target)).
  { destruct effect; simpl in *; try lia.
    destruct (isDodging target); simpl; [lia |].
    destruct (Z.ltb_spec 0 (shield target)); simpl; [| lia].
    destruct (Z.ltb_spec 0 (value - Z.min (shield target) value)); simpl; lia. }
  destruct (applyEffect effect caster target) as [[result c1] t1]; simpl in *.
  specialize (IH c1 t1 Hrest). simpl in IH.
  destruct (applyEffects rest c1 t1) as [[rs c2] t2]; simpl in *.
  lia.
Qed.

Lemma shield_upkeep e : shield (upkeep e) = shield e.
Proof. unfold upkeep. simpl. destruct (isDodging e); reflexivity. Qed.

Lemma entityOf_checkGameOver side s : entityOf side (checkGameOver s) = entityOf side s.
Proof.
  unfold checkGameOver.
  destruct (hp (player s) <=? 0); [now destruct side |].
  destruct (hp (bot s) <=? 0); now destruct side.
Qed.

Lemma entityOf_settle settings side s :
  hp (entityOf side (settle settings s)) = hp (entityOf side s) /\
  shield (entityOf side (settle settings s)) = shield (entityOf side s).
Proof.
  unfold settle. destruct (_ && _).
  - rewrite <- (entityOf_checkGameOver side s).
    destruct side; simpl; now rewrite hp_upkeep, shield_upkeep.
  - now rewrite entityOf_checkGameOver.
Qed.

Lemma entityOf_recorded now key t isPlayer out s :
  entityOf (sideOf isPlayer) (recorded now key t isPlayer out s) = out.1.2 /\
  entityOf (flip (sideOf isPlayer)) (recorded now key t isPlayer out s) = out.2.
Proof. now destruct isPlayer. Qed.

Lemma state_ok_entityOf side s : state_ok s -> entity_ok (entityOf side s).
Proof. intros [Hp Hb]. now destruct side. Qed.

(** X3: a [useTool] call never lowers the caller's hp or shield and never
    raises the opponent's: in a state within the resource bounds, whatever
    the input and the mode, the caller's hp and shield after the call are at
    least what they were and the opponent's at most what they were. *)
Theorem useTool_never_hurts_caller settings now toolInput isPlayer s :
  state_ok s ->
  let s' := (useTool settings now toolInput isPlayer s).2 in
  let me := sideOf isPlayer in
  hp (entityOf me s) <= hp (entityOf me s') /\
  shield (entityOf me s) <= shield (entityOf me s') /\
  hp (entityOf (flip me) s') <= hp (entityOf (flip me) s) /\
  shield (entityOf (flip me) s') <= shield (entityOf (flip me) s).
Proof.
  intros Hok s' me. subst s' me.
  destruct (success (useTool settings now toolInput isPlayer s).1) eqn:Hres.
  - destruct (useTool_success _ _ _ _ _ Hres)
      as (key & t & Hfind & _ & _ & Hcan & Heq).
    cbv zeta in Heq. rewrite Heq. cbn [snd].
    set (out := applyEffects _ _ _).
    destruct (entityOf_settle settings (sideOf isPlayer)
                (recorded now key t isPlayer out s)) as [-> ->].
    destruct (entityOf_settle settings (flip (sideOf isPlayer))
                (recorded now key t isPlayer out s)) as [-> ->].
    destruct (entityOf_recorded now key t isPlayer out s) as [-> ->].
    destruct (TOOLS_ok _ _ (findTool_In _ _ _ Hfind)) as (_ & _ & Heffs).
    destruct (state_ok_entityOf (sideOf isPlayer) s Hok) as (Hhp & _).
    destruct (state_ok_entityOf (flip (sideOf isPlayer)) s Hok) as (Hhp' & _).
    pose proof (applyEffects_direction (effects t)
                  (pay key t (entityOf (sideOf isPlayer) s))
                  (entityOf (flip (sideOf isPlayer)) s) Heffs) as Hdir.
    simpl in Hdir. specialize (Hdir ltac:(lia) ltac:(lia)).
    subst out. lia.
  - rewrite (useTool_failure _ _ _ _ _ Hres). lia.
Qed.

Lemma useTool_never_hurts_caller_witness :
  let s' := (useTool realTime 10 "lightning" true fresh).2 in
  hp (player fresh) <= hp (player s') /\
  shield (player fresh) <= shield (player s') /\
  hp (bot s') <= hp (bot fresh) /\
  shield (bot s') <= shield (bot fresh).
Proof.
  exact (useTool_never_hurts_caller realTime 10 "lightning" true fresh
           (getInitialState_ok 0 0)).
Defined.

(** ** Who wins, and whose turn it is *)

Lemma reachable_ok settings s : reachable settings s -> state_ok s.
Proof.
  induction 1;
    auto using getInitialState_ok, useTool_ok, endTurn_ok, updateRealTime_ok.
  apply getInitialState_ok.
Qed.

Lemma outcome_ok_endTurn s : outcome_ok s -> outcome_ok (endTurn s).
Proof.
  unfold outcome_ok, endTurn. cbn [winner gameOver player bot].
  now rewrite !hp_upkeep.
Qed.

Lemma outcome_ok_updateRealTime now s : outcome_ok s -> outcome_ok (updateRealTime now s).
Proof.
  unfold outcome_ok, updateRealTime. cbn [winner gameOver player bot].
  now rewrite !hp_tick.
Qed.

Lemma outcome_ok_open s :
  outcome_ok s -> gameOver s = false ->
  winner s = None /\ 0 < hp (player s) /\ 0 < hp (bot s).
Proof.
  unfold outcome_ok. destruct (winner s) as [[] |]; intros H Hopen;
    [destruct H; congruence .. | tauto].
Qed.

Lemma outcome_ok_settle settings now key t isPlayer out s :
  gameOver s = false -> winner s = None ->
  0 < hp out.1.2 -> 0 <= hp out.2 ->
  outcome_ok (settle settings (recorded now key t isPlayer out s)).
Proof.
  intros Hopen Hwin Hc Ht. unfold settle.
  assert (H : outcome_ok (checkGameOver (recorded now key t isPlayer out s))).
  { unfold checkGameOver, recorded, outcome_ok.
    destruct isPlayer; cbn [player bot hp];
      repeat (match goal with
              | |- context [?a <=? ?b] => destruct (Z.leb_spec a b)
              end; cbn [winner gameOver player bot]);
      rewrite ?Hwin; try lia; repeat split; try assumption; lia. }
  destruct (_ && _); [now apply outcome_ok_endTurn | exact H].
Qed.

Lemma useTool_outcome settings now toolInput isPlayer s :
  state_ok s -> outcome_ok s ->
  outcome_ok (useTool settings now toolInput isPlayer s).2.
Proof.
  intros Hok Hout.
  destruct (success (useTool settings now toolInput isPlayer s).1) eqn:Hres.
  - destruct (useTool_success _ _ _ _ _ Hres)
      as (key & t & Hfind & Hopen & _ & _ & Heq).
    cbv zeta in Heq. rewrite Heq. cbn [snd].
    destruct (outcome_ok_open s Hout Hopen) as (Hwin & Hp & Hb).
    destruct (TOOLS_ok _ _ (findTool_In _ _ _ Hfind)) as (_ & _ & Heffs).
    destruct (state_ok_entityOf (sideOf isPlayer) s Hok) as (Hhp & _).
    pose proof (applyEffects_direction (effects t)
                  (pay key t (entityOf (sideOf isPlayer) s))
                  (entityOf (flip (sideOf isPlayer)) s) Heffs) as Hdir.
    simpl in Hdir.
    assert (Hme : 0 < hp (entityOf (sideOf isPlayer) s)) by now destruct isPlayer.
    assert (Hyou : 0 < hp (entityOf (flip (sideOf isPlayer)) s)) by now destruct isPlayer.
    specialize (Hdir ltac:(lia) ltac:(lia)).
    apply outcome_ok_settle; try assumption; lia.
  - now rewrite (useTool_failure _ _ _ _ _ Hres).
Qed.

(** X4: in every state a run of the engine reaches, in either mode, the
    match is open exactly while both entities have hp left and then has no
    winner; once it is over exactly one entity is at 0 hp, and the winner is
    the other one. *)
Theorem winner_is_the_survivor settings s :
  reachable settings s -> outcome_ok s.
Proof.
  induction 1 as [| s now toolInput isPlayer Hreach IH | | |].
  - unfold outcome_ok. simpl. lia.
  - apply useTool_outcome; [now apply (reachable_ok settings) | exact IH].
  - now apply outcome_ok_endTurn.
  - now apply outcome_ok_updateRealTime.
  - unfold outcome_ok. simpl. lia.
Qed.

Lemma winner_is_the_survivor_witness :
  winner finished = Some SPlayer /\ outcome_ok finished.
Proof.
  split; [vm_compute; reflexivity |].
  apply (winner_is_the_survivor realTime).
  unfold finished. repeat apply reach_useTool. apply reach_init.
Defined.

Lemma useTool_turn_step settings now toolInput isPlayer s :
  let s' := (useTool settings now toolInput isPlayer s).2 in
  (turn s' = turn s /\ turnCount s' = turnCount s) \/
  (turn s' = flip (turn s) /\ turnCount s' = turnCount s + 1).
Proof.
  intros s'. subst s'.
  destruct (success (useTool settings now toolInput isPlayer s).1) eqn:Hres.
  - destruct (useTool_success _ _ _ _ _ Hres) as (key & t & _ & _ & _ & _ & Heq).
    cbv zeta in Heq. rewrite Heq. cbn [snd]. unfold settle.
    destruct (_ && _); [right | left]; cbn [endTurn turn turnCount];
      rewrite turn_checkGameOver, turnCount_checkGameOver; split; reflexivity.
  - rewrite (useTool_failure _ _ _ _ _ Hres). now left.
Qed.

Lemma turn_parity_step (s s' : State) :
  turn_parity s ->
  turn s' = flip (turn s) -> turnCount s' = turnCount s + 1 ->
  turn_parity s'.
Proof.
  intros [Hnonneg Hpar] Hturn Hcount. unfold turn_parity.
  rewrite Hturn, Hcount. split; [lia |].
  replace (turnCount s + 1) with (Z.succ (turnCount s)) by lia.
  rewrite Z.even_succ, <- Z.negb_even.
  destruct (turn s), (Z.even (turnCount s)); simpl in *; split; intros;
    try congruence; try reflexivity.
  - destruct Hpar as [Hpar _]. specialize (Hpar eq_refl). discriminate.
  - destruct Hpar as [_ Hpar]. specialize (Hpar eq_refl). discriminate.
Qed.

(** X5: in every state a run of the engine reaches, the turn counter is not
    negative and tells whose turn it is: the player holds the turn exactly
    when the counter is even. *)
Theorem turn_follows_counter settings s :
  reachable settings s -> turn_parity s.
Proof.
  induction 1 as [| s now toolInput isPlayer Hreach IH | s Hreach IH | |].
  - split; [simpl; lia | simpl; tauto].
  - destruct (useTool_turn_step settings now toolInput isPlayer s)
      as [[Ht Hc] | [Ht Hc]].
    + unfold turn_parity. now rewrite Ht, Hc.
    + now apply (turn_parity_step s).
  - now apply (turn_parity_step s).
  - assumption.
  - split; [simpl; lia | simpl; tauto].
Qed.

Lemma turn_follows_counter_witness :
  turn_parity (useTool turnBased 3 "strike" true fresh).2.
Proof.
  apply (turn_follows_counter turnBased). apply reach_useTool, reach_init.
Defined.

(** ** What a cast costs *)

Lemma TOOLS_cooldown_pos key t : In (key, t) TOOLS -> 1 <= cooldown t.
Proof. intros H. catalog_cases H; simpl; lia. Qed.

Lemma Qc_of_Z_pos (z : Z) : 1 <= z -> (0 < Qc_of_Z z)%Qc.
Proof.
  intros H. unfold Qclt, Qc_of_Z. simpl.
  change (inject_Z 0 < inject_Z z)%Q. rewrite <- Zlt_Qlt. lia.
Qed.

Lemma Qc_of_Z_pred (z : Z) : (Qc_of_Z z - 1)%Qc = Qc_of_Z (z - 1).
Proof.
  apply Qc_is_canon. unfold Qcminus, Qcplus, Qcopp, Q2Qc, Qc_of_Z. cbn [this].
  rewrite !Qred_correct. unfold Z.sub. rewrite inject_Z_plus. reflexivity.
Qed.

Lemma Qcmax_pred (z : Z) : 1 <= z -> Qcmax 0 (Qc_of_Z z - 1)%Qc = Qc_of_Z (z - 1).
Proof.
  intros H. rewrite Qc_of_Z_pred. unfold Qcmax.
  case_decide as Hle; [reflexivity |].
  exfalso. apply Hle. apply Qc_of_Z_nonneg. lia.
Qed.

Lemma frame_pay key t caster :
  mana (pay key t caster) = mana caster - manaCost t /\
  cooldowns (pay key t caster) = <[key := Qc_of_Z (cooldown t)]> (cooldowns caster) /\
  maxMana (pay key t caster) = maxMana caster.
Proof. repeat split. Qed.

Lemma frame_fields e e' :
  frame e' = frame e ->
  mana e' = mana e /\ maxMana e' = maxMana e /\ cooldowns e' = cooldowns e.
Proof. unfold frame. intros [= ? ? ? ? ? ? ?]. tauto. Qed.

(** X6: in real-time mode a successful cast costs the caller exactly the
    tool's mana cost and sets exactly the caller's cooldown entry for the
    tool's key to the catalog cooldown; the opponent's mana and cooldowns,
    the turn and the turn counter stay as they were. *)
Theorem real_time_cast_accounting settings now toolInput isPlayer s key t :
  isRealTime settings = true ->
  findTool toolInput = Some (key, t) ->
  success (useTool settings now toolInput isPlayer s).1 = true ->
  let s' := (useTool settings now toolInput isPlayer s).2 in
  let me := sideOf isPlayer in
  mana (entityOf me s') = mana (entityOf me s) - manaCost t /\
  cooldowns (entityOf me s')
  = <[key := Qc_of_Z (cooldown t)]> (cooldowns (entityOf me s)) /\
  mana (entityOf (flip me) s') = mana (entityOf (flip me) s) /\
  cooldowns (entityOf (flip me) s') = cooldowns (entityOf (flip me) s) /\
  turn s' = turn s /\ turnCount s' = turnCount s.
Proof.
  intros Hmode Hfind Hres s' me. subst s' me.
  destruct (useTool_success _ _ _ _ _ Hres) as (key' & t' & Hfind' & _ & _ & _ & Heq).
  rewrite Hfind in Hfind'. injection Hfind' as <- <-.
  cbv zeta in Heq. rewrite Heq. cbn [snd]. unfold settle. rewrite Hmode.
  cbn [negb andb]. rewrite !entityOf_checkGameOver, turn_checkGameOver,
    turnCount_checkGameOver.
  set (out := applyEffects _ _ _).
  destruct (entityOf_recorded now key t isPlayer out s) as [-> ->].
  destruct (applyEffects_frame (effects t)
              (pay key t (entityOf (sideOf isPlayer) s))
              (entityOf (flip (sideOf isPlayer)) s)) as [Hc Ht].
  fold out in Hc, Ht.
  apply frame_fields in Hc as (-> & _ & ->).
  apply frame_fields in Ht as (-> & _ & ->).
  repeat split.
Qed.

Lemma real_time_cast_accounting_witness :
  let s' := (useTool realTime 10 "lightning" true fresh).2 in
  mana (player s') = 100 - 35 /\
  cooldowns (player s') = <["lightning" := Qc_of_Z 4]> ∅ /\
  mana (bot s') = 100 /\ cooldowns (bot s') = ∅ /\
  turn s' = SPlayer /\ turnCount s' = 0.
Proof.
  refine (real_time_cast_accounting realTime 10 "lightning" true fresh "lightning"
            (mkTool "Lightning" ["lightning"; "bolt"; "shock"] attack 35 4
                    [EDamage 50] "Strike with lightning") eq_refl _ _);
    vm_compute; reflexivity.
Defined.

Lemma mana_upkeep e : mana (upkeep e) = Z.min (maxMana e) (mana e + 10).
Proof. unfold upkeep. simpl. destruct (isDodging e); reflexivity. Qed.

Lemma cooldowns_upkeep e :
  cooldowns (upkeep e) = (fun c => Qcmax 0 (c - 1)%Qc) <$> cooldowns e.
Proof. unfold upkeep. simpl. destruct (isDodging e); reflexivity. Qed.

Lemma entityOf_endTurn side s : entityOf side (endTurn s) = upkeep (entityOf side s).
Proof. now destruct side. Qed.

(** X7: in turn-based mode a successful cast that leaves the match open
    returns after the upkeep of both entities: the caller's mana is its old
    mana less the cost plus 10, capped at its maximum; the caller's cooldown
    entry for the tool's key is the catalog cooldown less one (so a tool of
    cooldown 1 is never seen on cooldown); the opponent has regenerated 10
    mana, capped, and each of its cooldowns is one lower, floored at 0. *)
Theorem turn_based_cast_accounting settings now toolInput isPlayer s key t :
  isRealTime settings = false ->
  findTool toolInput = Some (key, t) ->
  success (useTool settings now toolInput isPlayer s).1 = true ->
  gameOver (useTool settings now toolInput isPlayer s).2 = false ->
  let s' := (useTool settings now toolInput isPlayer s).2 in
  let me := sideOf isPlayer in
  mana (entityOf me s')
  = Z.min (maxMana (entityOf me s)) (mana (entityOf me s) - manaCost t + 10) /\
  cooldowns (entityOf me s') !! key = Some (Qc_of_Z (cooldown t - 1)) /\
  mana (entityOf (flip me) s')
  = Z.min (maxMana (entityOf (flip me) s)) (mana (entityOf (flip me) s) + 10) /\
  cooldowns (entityOf (flip me) s')
  = (fun c => Qcmax 0 (c - 1)%Qc) <$> cooldowns (entityOf (flip me) s).
Proof.
  intros Hmode Hfind Hres Hopen s' me. subst s' me. revert Hopen.
  destruct (useTool_success _ _ _ _ _ Hres) as (key' & t' & Hfind' & _ & _ & _ & Heq).
  rewrite Hfind in Hfind'. injection Hfind' as <- <-.
  cbv zeta in Heq. rewrite Heq. cbn [snd]. unfold settle. rewrite Hmode.
  cbn [negb andb].
  set (out := applyEffects _ _ _).
  destruct (gameOver (checkGameOver (recorded now key t isPlayer out s))) eqn:Hover;
    cbn [negb]; [intros Hopen; congruence | intros _].
  rewrite !entityOf_endTurn, !entityOf_checkGameOver.
  destruct (entityOf_recorded now key t isPlayer out s) as [-> ->].
  rewrite !mana_upkeep, !cooldowns_upkeep.
  destruct (applyEffects_frame (effects t)
              (pay key t (entityOf (sideOf isPlayer) s))
              (entityOf (flip (sideOf isPlayer)) s)) as [Hc Ht].
  fold out in Hc, Ht.
  apply frame_fields in Hc as (-> & -> & ->).
  apply frame_fields in Ht as (-> & -> & ->).
  repeat split.
  destruct (frame_pay key t (entityOf (sideOf isPlayer) s)) as (_ & -> & _).
  rewrite lookup_fmap, lookup_insert_eq. simpl. f_equal.
  apply Qcmax_pred. exact (TOOLS_cooldown_pos _ _ (findTool_In _ _ _ Hfind)).
Qed.

Lemma turn_based_cast_accounting_witness :
  let s' := (useTool turnBased 3 "strike" true fresh).2 in
  mana (player s') = Z.min 100 (100 - 10 + 10) /\
  cooldowns (player s') !! "strike" = Some (Qc_of_Z (1 - 1)) /\
  mana (bot s') = Z.min 100 (100 + 10) /\
  cooldowns (bot s') = (fun c => Qcmax 0 (c - 1)%Qc) <$> ∅.
Proof.
  refine (turn_based_cast_accounting turnBased 3 "strike" true fresh "strike"
            (mkTool "Strike" ["strike"; "hit"; "attack"] attack 10 1
                    [EDamage 15] "Quick melee attack") eq_refl _ _ _);
    vm_compute; reflexivity.
Defined.

(** ** Casting twice in a row *)

Lemma canUseTool_after_pay settings key t caster caster' :
  TOOLS_get key = Some t -> 1 <= cooldown t ->
  canUseTool settings caster key = Valid ->
  frame caster' = frame (pay key t caster) ->
  canUseTool settings caster' key = Invalid (Msg "Not enough mana") \/
  canUseTool settings caster' key
  = Invalid (MsgCooldown (Qc_of_Z (cooldown t))
               (if isRealTime settings then "s" else " turns")).
Proof.
  intros Hget Hcd Hcan Hframe. revert Hcan. unfold canUseTool, TOOLS_read.
  rewrite Hget. cbv beta iota.
  destruct (_ && _); [discriminate |]. intros _.
  destruct (mana caster' <? manaCost t); [now left | right].
  apply frame_fields in Hframe as (_ & _ & ->).
  destruct (frame_pay key t caster) as (_ & -> & _).
  rewrite lookup_insert_eq. simpl.
  case_decide as Hpos; [reflexivity |].
  exfalso. apply Hpos. now apply Qc_of_Z_pos.
Qed.

(** X8: the same input submitted again by the same entity right after a
    successful cast always fails and changes nothing. In turn-based mode the
    reason is "Not your turn" (or "Game is over" when the cast ended the
    match); in real-time mode it is the tool's cooldown, shown as the full
    catalog cooldown, unless the remaining mana no longer covers the cost
    ("Not enough mana") or the cast ended the match. *)
Theorem recast_fails settings now now' toolInput isPlayer s :
  success (useTool settings now toolInput isPlayer s).1 = true ->
  let s1 := (useTool settings now toolInput isPlayer s).2 in
  exists reason,
    useTool settings now' toolInput isPlayer s1 = (Failure reason, s1) /\
    if isRealTime settings
    then reason = Msg "Game is over" \/ reason = Msg "Not enough mana" \/
         exists key t, findTool toolInput = Some (key, t) /\
                       reason = MsgCooldown (Qc_of_Z (cooldown t)) "s"
    else reason = Msg "Game is over" \/ reason = Msg "Not your turn".
Proof.
  intros Hres s1. subst s1.
  destruct (useTool_success _ _ _ _ _ Hres)
    as (key & t & Hfind & Hopen & Hturn & Hcan & Heq).
  cbv zeta in Heq. rewrite Heq. cbn [snd]. clear Heq.
  set (out := applyEffects _ _ _).
  set (s1 := settle settings (recorded now key t isPlayer out s)).
  destruct (gameOver s1) eqn:Hover.
  { exists (Msg "Game is over"). split; [now apply useTool_gameOver |].
    destruct (isRealTime settings); tauto. }
  destruct (isRealTime settings) eqn:Hmode.
  - assert (Hme : entityOf (sideOf isPlayer) s1 = out.1.2).
    { subst s1. unfold settle. rewrite Hmode. cbn [negb andb].
      rewrite entityOf_checkGameOver. apply entityOf_recorded. }
    pose proof (findTool_In _ _ _ Hfind) as Hin.
    destruct (applyEffects_frame (effects t)
                (pay key t (entityOf (sideOf isPlayer) s))
                (entityOf (flip (sideOf isPlayer)) s)) as [Hframe _].
    fold out in Hframe.
    pose proof (canUseTool_after_pay settings key t _ _ (TOOLS_get_In _ _ Hin)
                  (TOOLS_cooldown_pos _ _ Hin) Hcan Hframe) as Hagain.
    rewrite Hmode, <- Hme in Hagain.
    assert (Hcall : forall reason,
               canUseTool settings (entityOf (sideOf isPlayer) s1) key = Invalid reason ->
               useTool settings now' toolInput isPlayer s1 = (Failure reason, s1)).
    { intros reason Hinv. unfold useTool. rewrite Hover, Hmode, Hfind. cbn [negb andb].
      destruct isPlayer; cbn [sideOf entityOf] in Hinv; now rewrite Hinv. }
    destruct Hagain as [Hinv | Hinv]; eexists; (split; [exact (Hcall _ Hinv) |]).
    + tauto.
    + right. right. now exists key, t.
  - exists (Msg "Not your turn"). split; [| tauto].
    assert (Hflip : turn s1 = flip (sideOf isPlayer)).
    { subst s1. unfold settle in *. rewrite Hmode in *. cbn [negb andb] in *.
      destruct (gameOver (checkGameOver _)) eqn:Hcgo; cbn [negb] in *;
        [congruence |].
      cbn [endTurn turn]. rewrite turn_checkGameOver. cbn [recorded turn].
      now rewrite (Hturn eq_refl). }
    unfold useTool. rewrite Hover, Hmode, Hflip.
    rewrite bool_decide_eq_false_2 by (destruct isPlayer; discriminate).
    reflexivity.
Qed.

Lemma recast_fails_witness :
  let s1 := (useTool realTime 10 "fireball" true fresh).2 in
  exists reason,
    useTool realTime 20 "fireball" true s1 = (Failure reason, s1) /\
    (reason = Msg "Game is over" \/ reason = Msg "Not enough mana" \/
     exists key t, findTool "fireball" = Some (key, t) /\
                   reason = MsgCooldown (Qc_of_Z (cooldown t)) "s").
Proof. exact (recast_fails realTime 10 20 "fireball" true fresh eq_refl). Defined.

Lemma lastAction_settle settings s : lastAction (settle settings s) = lastAction s.
Proof.
  unfold settle, checkGameOver.
  destruct (hp (player s) <=? 0); [destruct (_ && _); reflexivity |].
  destruct (hp (bot s) <=? 0); destruct (_ && _); reflexivity.
Qed.

(** X9: the last action kept for observers mirrors the call that produced
    it: after a success it names the caller's side, the tool's display name
    and catalog key, the very list of effect results returned to the caller
    and the time of the call; a failed call leaves the previous last action
    in place. *)
Theorem lastAction_mirrors_result settings now toolInput isPlayer s :
  match (useTool settings now toolInput isPlayer s).1 with
  | Success toolName rs _ =>
      exists key t,
        findTool toolInput = Some (key, t) /\ toolName = name t /\
        lastAction (useTool settings now toolInput isPlayer s).2
        = Some (mkAction (sideOf isPlayer) (name t) key rs now)
  | Failure _ =>
      lastAction (useTool settings now toolInput isPlayer s).2 = lastAction s
  end.
Proof.
  destruct (success (useTool settings now toolInput isPlayer s).1) eqn:Hres.
  - destruct (useTool_success _ _ _ _ _ Hres) as (key & t & Hfind & _ & _ & _ & Heq).
    cbv zeta in Heq. rewrite Heq. cbn [fst snd].
    exists key, t. rewrite lastAction_settle. repeat split. exact Hfind.
  - rewrite (useTool_failure _ _ _ _ _ Hres).
    destruct (useTool settings now toolInput isPlayer s).1; [reflexivity | discriminate].
Qed.

(** ** What the effect results report *)

(** X10: the amount a heal result reports is the caster's actual hp gain,
    whatever the state: the full amount when it fits below the maximum, the
    remaining room otherwise (0 at full hp); the target is left as it is. *)
Theorem heal_reports_actual_gain (value : Z) (caster target : Entity) :
  let out := applyEffect (EHeal value) caster target in
  out.1.1 = RHeal (hp out.1.2 - hp caster) /\
  hp out.1.2 = Z.min (maxHp caster) (hp caster + value) /\
  out.2 = target.
Proof. simpl. repeat split. f_equal. lia. Qed.

(** X11: for a target that is not dodging, with hp, shield and the amount
    not negative, the numbers a damage result reports add up: with a shield
    the result carries the requested amount, the absorbed part and the rest,
    absorbed plus rest is the amount, the shield loses exactly the absorbed
    part and hp loses the rest or all that is left of it; without a shield
    the result carries the requested amount alone, even when the hp left is
    less than that. *)
Theorem damage_result_adds_up (value : Z) (caster target : Entity) :
  isDodging target = false ->
  0 <= shield target -> 0 <= hp target -> 0 <= value ->
  let out := applyEffect (EDamage value) caster target in
  out.1.2 = caster /\
  hp target - hp out.2 = Z.min (hp target) (value - Z.min (shield target) value) /\
  match out.1.1 with
  | RAbsorbed requested absorbed final =>
      0 < shield target /\
      requested = value /\ absorbed + final = value /\
      0 <= absorbed /\ 0 <= final /\
      shield target - shield out.2 = absorbed
  | RDamage requested =>
      requested = value /\ shield target = 0 /\ shield out.2 = 0
  | _ => False
  end.
Proof.
  intros Hflag Hshield Hhp Hvalue. simpl. rewrite Hflag.
  destruct (Z.ltb_spec 0 (shield target)); simpl.
  - destruct (Z.ltb_spec 0 (value - Z.min (shield target) value)); simpl;
      repeat split; lia.
  - repeat split; lia.
Qed.

Lemma damage_result_adds_up_witness :
  let out := applyEffect (EDamage 40) wounded (set_shield 5 wounded) in
  out.1.1 = RAbsorbed 40 5 35 /\ hp out.2 = 0 /\ shield out.2 = 0.
Proof.
  pose proof (damage_result_adds_up 40 wounded (set_shield 5 wounded) eq_refl) as H.
  simpl in H. specialize (H ltac:(lia) ltac:(lia) ltac:(lia)).
  repeat split.
Defined.

(** ** The real-time tick *)

Lemma Qcmax_pos (c : Qc) : (0 < c)%Qc -> Qcmax 0 c = c.
Proof.
  intros H. unfold Qcmax. case_decide as Hle; [reflexivity |].
  exfalso. apply Hle. now apply Qclt_le_weak.
Qed.

Lemma Qc_of_Z_0_div (q : Qc) : (Qc_of_Z 0 / q)%Qc = 0%Qc.
Proof. unfold Qcdiv. apply Qcmult_0_l. Qed.

Lemma Qcminus_0 (c : Qc) : (c - 0)%Qc = c.
Proof. unfold Qcminus. replace (- 0)%Qc with 0%Qc by (now apply Qc_is_canon). apply Qcplus_0_r. Qed.

Lemma tick_fields now e :
  tick now e
  = mkEntity (hp e) (maxHp e)
      (if 1000 <=? now - lastManaRegen e
       then Z.min (maxMana e) (mana e + 10) else mana e)
      (maxMana e) (shield e)
      ((fun c =>
          if decide (0 < c)%Qc
          then Qcmax 0 (c - Qc_of_Z (now - match lastCooldownUpdate e with
                                           | None | Some 0 => now
                                           | Some t => t
                                           end) / Qc_of_Z 1000)%Qc
          else c) <$> cooldowns e)
      (statusEffects e) (isDodging e)
      (if 1000 <=? now - lastManaRegen e then now else lastManaRegen e)
      (Some now).
Proof. unfold tick. destruct (1000 <=? now - lastManaRegen e); reflexivity. Qed.

Lemma tick_same_instant now e : tick now (tick now e) = tick now e.
Proof.
  rewrite (tick_fields now (tick now e)). rewrite !(tick_fields now e).
  cbn [hp maxHp mana maxMana shield cooldowns statusEffects isDodging
       lastManaRegen lastCooldownUpdate].
  replace (match now with 0 | _ => now end) with now by now destruct now.
  rewrite Z.sub_diag.
  assert (Hmap : forall (m0 : gmap string Qc),
             (fun c => if decide (0 < c)%Qc
                       then Qcmax 0 (c - Qc_of_Z 0 / Qc_of_Z 1000)%Qc
                       else c) <$> m0 = m0).
  { intros m0. rewrite <- (map_fmap_id m0) at 2. apply map_fmap_ext.
    intros k c _. rewrite Qc_of_Z_0_div, Qcminus_0.
    case_decide; [now apply Qcmax_pos | reflexivity]. }
  rewrite Hmap.
  destruct (Z.leb_spec 1000 (now - lastManaRegen e)) as [Hregen | Hregen].
  - rewrite Z.sub_diag. reflexivity.
  - destruct (Z.leb_spec 1000 (now - lastManaRegen e)); [lia | reflexivity].
Qed.

(** X12: a second tick at the same instant changes nothing: mana is
    regenerated once and cooldowns are lowered once for the time that has
    passed, however often [updateRealTime] is called with the same clock
    value. *)
Theorem updateRealTime_same_instant now s :
  updateRealTime now (updateRealTime now s) = updateRealTime now s.
Proof. unfold updateRealTime. cbn [player bot turn turnCount gameOver winner lastAction]. now rewrite !tick_same_instant. Qed.

Lemma timePassed_nonneg (d : Z) : 0 <= d -> (0 ≤ Qc_of_Z d / Qc_of_Z 1000)%Qc.
Proof.
  intros Hd. unfold Qcdiv.
  replace 0%Qc with (0 * / Qc_of_Z 1000)%Qc by apply Qcmult_0_l.
  apply Qcmult_le_compat_r; [now apply Qc_of_Z_nonneg |].
  apply Qclt_le_weak. reflexivity.
Qed.

Lemma Qcminus_le (c p : Qc) : (0 ≤ p)%Qc -> (c - p ≤ c)%Qc.
Proof.
  intros Hp. unfold Qcminus. rewrite <- (Qcplus_0_r c) at 2.
  apply Qcplus_le_mono_l. replace 0%Qc with (- 0)%Qc by (now apply Qc_is_canon).
  now apply Qcopp_le_compat.
Qed.

Lemma Qcmax_expired (c p : Qc) : (c ≤ p)%Qc -> Qcmax 0 (c - p)%Qc = 0%Qc.
Proof.
  intros Hcp. unfold Qcmax. case_decide as Hle; [| reflexivity].
  apply Qcle_antisym; [| exact Hle].
  unfold Qcminus. rewrite <- (Qcplus_opp_r p). now apply Qcplus_le_mono_r.
Qed.

(** X13: a tick keeps every cooldown entry; the first tick of an entity
    (no earlier tick recorded) lowers none; with a clock that does not run
    backwards no tick raises a cooldown; and a running cooldown is exactly 0
    after a tick once the seconds since the previous tick cover it. *)
Theorem tick_lowers_cooldowns now s side key c :
  cooldowns (entityOf side s) !! key = Some c ->
  exists c',
    cooldowns (entityOf side (updateRealTime now s)) !! key = Some c' /\
    (lastCooldownUpdate (entityOf side s) = None -> c' = c) /\
    (forall t, lastCooldownUpdate (entityOf side s) = Some t -> t <= now ->
               (c' ≤ c)%Qc) /\
    (forall t, lastCooldownUpdate (entityOf side s) = Some t -> t <> 0 ->
               (0 < c)%Qc -> (c ≤ Qc_of_Z (now - t) / Qc_of_Z 1000)%Qc ->
               c' = 0%Qc).
Proof.
  intros Hc.
  assert (Htick : entityOf side (updateRealTime now s) = tick now (entityOf side s))
    by now destruct side.
  rewrite Htick, tick_fields. cbn [cooldowns].
  rewrite lookup_fmap, Hc. cbn [fmap option_fmap option_map].
  eexists. split; [reflexivity |].
  split; [| split].
  - intros ->. rewrite Z.sub_diag, Qc_of_Z_0_div, Qcminus_0.
    case_decide; [now apply Qcmax_pos | reflexivity].
  - intros t -> Ht. case_decide as Hpos; [| apply Qcle_refl].
    assert (Hp : (0 ≤ Qc_of_Z (now - match t with 0 => now | _ => t end)
                      / Qc_of_Z 1000)%Qc)
      by (apply timePassed_nonneg; destruct t; lia).
    unfold Qcmax. case_decide.
    + now apply Qcminus_le.
    + now apply Qclt_le_weak.
  - intros t -> Ht Hpos Hcover.
    rewrite decide_True by assumption.
    replace (match t with 0 => now | _ => t end) with t by (destruct t; congruence).
    now apply Qcmax_expired.
Qed.

Lemma tick_lowers_cooldowns_witness :
  exists c',
    cooldowns (player (updateRealTime 9000 (updateRealTime 1000 finished)))
      !! "lightning" = Some c' /\ c' = 0%Qc.
Proof.
  destruct (tick_lowers_cooldowns 9000 (updateRealTime 1000 finished) SPlayer
              "lightning" (Qc_of_Z 4)) as (c' & Hc' & _ & _ & Hzero).
  - apply lookup_Qc_of_Z. vm_compute. reflexivity.
  - exists c'. split; [exact Hc' |].
    apply (Hzero 1000); [reflexivity | discriminate | reflexivity | discriminate].
Defined.

(** ** The bot's choice and move *)

Lemma makeDecision_cases settings (r1 r2 r3 : Qc) s :
  (0 ≤ r3)%Qc -> (r3 < 1)%Qc ->
  (availableTools settings s = [] /\ makeDecision settings r1 r2 r3 s = NoMove) \/
  (exists key t, In (key, t) (availableTools settings s) /\
                 makeDecision settings r1 r2 r3 s = Move (name t)).
Proof.
  intros H0 H1. unfold makeDecision.
  set (available := availableTools settings s).
  destruct available as [| first others] eqn:Havail.
  - left. now rewrite bool_decide_eq_true_2.
  - right. rewrite bool_decide_eq_false_2 by discriminate. rewrite <- Havail.
    match goal with
    | |- context [match ?c with Some t => Move (name t.2) | None => Fault end] =>
        set (chosen := c)
    end.
    assert (Hsome : is_Some chosen).
    { subst chosen. apply orElse_is_Some.
      assert (Hlen : 0 < Z.of_nat (length available)) by (rewrite Havail; simpl; lia).
      pose proof (floor_index r3 _ H0 H1 Hlen) as Hidx.
      destruct (Z.ltb_spec (Qfloor (r3 * Qc_of_Z (Z.of_nat (length available)))%Qc) 0);
        [lia |].
      apply lookup_lt_is_Some. lia. }
    destruct Hsome as [[key t] Hchosen].
    exists key, t. rewrite Hchosen. split; [| reflexivity].
    revert Hchosen. generalize (key, t). subst chosen.
    repeat (apply (orElse_elim (fun y => In y available))); intros y Hy.
    + destruct (_ && _); [now apply findKey_In in Hy | discriminate].
    + destruct (_ && _); [now apply findKey_In in Hy | discriminate].
    + destruct (_ && _); [now apply findKey_In in Hy | discriminate].
    + apply head_In, sortByDamage_In in Hy. now apply filter_In in Hy as [Hy _].
    + destruct (_ <? 0); [discriminate |].
      apply list_elem_of_In. eapply list_elem_of_lookup_2. exact Hy.
Qed.

Lemma TOOLS_name key t :
  In (key, t) TOOLS -> String.eqb (name t) "" = false /\ findTool (name t) = Some (key, t).
Proof. intros H. catalog_cases H; split; reflexivity. Qed.

Lemma useTool_succeeds settings now toolInput isPlayer s key t :
  gameOver s = false ->
  (isRealTime settings = false -> turn s = sideOf isPlayer) ->
  findTool toolInput = Some (key, t) ->
  canUseTool settings (entityOf (sideOf isPlayer) s) key = Valid ->
  success (useTool settings now toolInput isPlayer s).1 = true.
Proof.
  intros Hopen Hturn Hfind Hcan. unfold useTool. rewrite Hopen, Hfind.
  replace (negb (isRealTime settings) && negb (bool_decide (turn s = sideOf isPlayer)))
    with false.
  2:{ destruct (isRealTime settings); [reflexivity |].
      rewrite bool_decide_eq_true_2 by auto. reflexivity. }
  replace (if isPlayer then player s else bot s)
    with (entityOf (sideOf isPlayer) s) by now destruct isPlayer.
  rewrite Hcan. destruct (applyEffects _ _ _) as [[rs c2] t2]. reflexivity.
Qed.

(** X14: the bot never wastes its move. While the match is open and, in
    turn-based mode, the bot holds the turn, the callback of [takeTurn]
    (with the fallback draw in [[0, 1)]) either submits the display name of
    a tool the bot can use, and that [useTool] call succeeds, or, exactly
    when the bot can use no tool, reports "Bot has no valid moves" and
    leaves the state as it was; it never throws. *)
Theorem takeTurn_never_wasted settings (r1 r2 r3 : Qc) now s :
  gameOver s = false ->
  (isRealTime settings = false -> turn s = SBot) ->
  (0 ≤ r3)%Qc -> (r3 < 1)%Qc ->
  (exists key t,
      usable settings s key t /\
      takeTurn settings r1 r2 r3 now s = Some (useTool settings now (name t) false s) /\
      success (useTool settings now (name t) false s).1 = true) \/
  ((forall key t, ~ usable settings s key t) /\
   takeTurn settings r1 r2 r3 now s = Some (Failure (Msg "Bot has no valid moves"), s)).
Proof.
  intros Hopen Hturn H0 H1. unfold takeTurn.
  destruct (makeDecision_cases settings r1 r2 r3 s H0 H1)
    as [[Hnone ->] | (key & t & Hin & ->)].
  - right. split; [| reflexivity]. intros key t Huse.
    apply availableTools_usable in Huse. rewrite Hnone in Huse. destruct Huse.
  - left. apply availableTools_usable in Hin. exists key, t.
    destruct Hin as [Hin Hcan].
    destruct (TOOLS_name key t Hin) as [-> Hfind].
    split; [now split |]. split; [reflexivity |].
    now apply (useTool_succeeds settings now (name t) false s key t).
Qed.

Lemma takeTurn_never_wasted_witness :
  takeTurn turnBased 0 0 0 8 (useTool turnBased 3 "strike" true fresh).2
  = Some (useTool turnBased 8 "Lightning" false (useTool turnBased 3 "strike" true fresh).2)
  /\ success (useTool turnBased 8 "Lightning" false
                (useTool turnBased 3 "strike" true fresh).2).1 = true.
Proof.
  destruct (takeTurn_never_wasted turnBased 0%Qc 0%Qc 0%Qc 8
              (useTool turnBased 3 "strike" true fresh).2)
    as [(key & t & _ & _ & _) | [_ Hnone]].
  - reflexivity.
  - intros _. reflexivity.
  - apply Qcle_refl.
  - reflexivity.
  - split; vm_compute; reflexivity.
  - vm_compute in Hnone. discriminate.
Defined.

Lemma find_filter {A} (f p : A -> bool) (l : list A) :
  List.find f (List.filter p l) = List.find (fun x => f x && p x) l.
Proof.
  induction l as [| x rest IH]; simpl; [reflexivity |].
  destruct (p x); simpl; rewrite IH; destruct (f x); reflexivity.
Qed.

Lemma not_above (a r : Qc) : (r ≤ a)%Qc -> bool_decide (a < r)%Qc = false.
Proof. intros H. apply bool_decide_eq_false_2. now apply Qcle_not_lt. Qed.

Lemma no_dodge_pick settings (r1 : Qc) :
  dodgingEnabled settings = false \/ (r1 ≤ Q2Qc (7 # 10))%Qc ->
  dodgingEnabled settings && bool_decide (Q2Qc (7 # 10) < r1)%Qc = false.
Proof.
  intros [-> | H]; [reflexivity |]. rewrite (not_above _ _ H). apply andb_false_r.
Qed.

(** X15: healing has priority over attacking: when the dodge pick does not
    fire (dodging disabled, or the first draw at most 0.7), a bot below 40
    hp that can use heal chooses "Heal", whatever else it could use. *)
Theorem bot_heals_when_low settings (r1 r2 r3 : Qc) s :
  dodgingEnabled settings = false \/ (r1 ≤ Q2Qc (7 # 10))%Qc ->
  hp (bot s) < 40 ->
  canUseTool settings (bot s) "heal" = Valid ->
  makeDecision settings r1 r2 r3 s = Move "Heal".
Proof.
  intros Hdodge Hlow Hheal. unfold makeDecision.
  rewrite (no_dodge_pick settings r1 Hdodge).
  assert (Hfind : findKey "heal" (availableTools settings s)
                  = Some ("heal", mkTool "Heal" ["heal"; "restore"; "mend"] utility 25 5
                                         [EHeal 35] "Restore health")).
  { unfold findKey, availableTools. rewrite find_filter. simpl. now rewrite Hheal. }
  assert (Hlen : length (availableTools settings s) <> 0%nat).
  { apply findKey_In in Hfind. destruct (availableTools settings s); [destruct Hfind |].
    discriminate. }
  rewrite bool_decide_eq_false_2 by assumption.
  pose proof (canUseTool_valid_mana settings (bot s) "heal" _ eq_refl Hheal) as Hmana.
  simpl in Hmana.
  destruct (Z.ltb_spec (hp (bot s)) 40); [| lia].
  destruct (Z.leb_spec 25 (mana (bot s))); [| lia].
  simpl andb. cbn [orElse]. rewrite Hfind. reflexivity.
Qed.

Lemma bot_heals_when_low_witness :
  makeDecision turnBased 0 0 0
    (mkState (initialEntity 0) wounded SBot 1 false None None) = Move "Heal".
Proof.
  apply bot_heals_when_low.
  - now left.
  - simpl. lia.
  - reflexivity.
Defined.

Lemma In_insertSorted x y l : x = y \/ In x l -> In x (insertSorted y l).
Proof.
  induction l as [| z rest IH]; simpl.
  - intros [-> | []]. now left.
  - destruct (compareDamage y z <=? 0); simpl.
    + intros [-> | H]; [now left | now right].
    + intros [-> | [-> | H]]; [right; apply IH; now left | now left |].
      right. apply IH. now right.
Qed.

Lemma In_sortByDamage x l : In x l -> In x (sortByDamage l).
Proof.
  induction l as [| y rest IH]; simpl; [tauto |].
  intros [-> | H]; apply In_insertSorted; [now left | right; auto].
Qed.

Lemma head_sortByDamage l h :
  head (sortByDamage l) = Some h ->
  In h l /\ forall y, In y l -> damageOf (effects y.2) <= damageOf (effects h.2).
Proof.
  intros Hhead. split; [now apply sortByDamage_In, head_In |].
  revert h Hhead. induction l as [| x rest IH]; intros h Hhead y Hy;
    [destruct Hy |].
  simpl in Hhead.
  destruct (sortByDamage rest) as [| z zs] eqn:Hsorted.
  - simpl in Hhead. injection Hhead as <-.
    destruct Hy as [-> | Hy]; [lia |].
    apply In_sortByDamage in Hy. rewrite Hsorted in Hy. destruct Hy.
  - specialize (IH z eq_refl). simpl in Hhead. unfold compareDamage in Hhead.
    destruct (Z.leb_spec (damageOf (effects z.2) - damageOf (effects x.2)) 0);
      simpl in Hhead; injection Hhead as <-.
    + destruct Hy as [-> | Hy]; [lia |]. specialize (IH y Hy). lia.
    + destruct Hy as [-> | Hy]; [lia |]. now apply IH.
Qed.

(** X16: when none of the dodge, heal and shield picks fires (dodging
    disabled or first draw at most 0.7; bot at 40 hp or more; bot shielded
    or second draw at most 0.6) and the bot can use some attack tool, it
    chooses an attack tool it can use whose first damage effect is the
    largest among the attack tools it can use. *)
Theorem bot_attacks_with_strongest settings (r1 r2 r3 : Qc) s :
  dodgingEnabled settings = false \/ (r1 ≤ Q2Qc (7 # 10))%Qc ->
  40 <= hp (bot s) ->
  shield (bot s) <> 0 \/ (r2 ≤ Q2Qc (6 # 10))%Qc ->
  (exists key t, usable settings s key t /\ type t = attack) ->
  exists key t,
    usable settings s key t /\ best_attack settings s t /\
    makeDecision settings r1 r2 r3 s = Move (name t).
Proof.
  intros Hdodge Hhp Hshield (key0 & t0 & Huse0 & Hattack0). unfold makeDecision.
  rewrite (no_dodge_pick settings r1 Hdodge).
  apply availableTools_usable in Huse0.
  rewrite bool_decide_eq_false_2
    by (destruct (availableTools settings s); [destruct Huse0 | discriminate]).
  destruct (Z.ltb_spec (hp (bot s)) 40); [lia |]. simpl andb. cbn [orElse].
  replace ((shield (bot s) =? 0) && (15 <=? mana (bot s))
           && bool_decide (Q2Qc (6 # 10) < r2)%Qc) with false.
  2:{ destruct Hshield as [Hs | Hr].
      - apply Z.eqb_neq in Hs. now rewrite Hs.
      - rewrite (not_above _ _ Hr). now rewrite andb_false_r. }
  cbn [orElse].
  set (attacks := List.filter _ (availableTools settings s)).
  assert (Hin0 : In (key0, t0) attacks).
  { subst attacks. apply filter_In. split; [assumption |].
    now apply bool_decide_eq_true_2. }
  destruct (head (sortByDamage attacks)) as [[key t] |] eqn:Hhead.
  - destruct (head_sortByDamage attacks (key, t) Hhead) as [Hin Hmax].
    subst attacks. apply filter_In in Hin as [Hin Htype].
    apply bool_decide_eq_true_1 in Htype. simpl in Htype.
    exists key, t. split; [now apply availableTools_usable |].
    split; [| reflexivity]. split; [assumption |].
    intros key' t' Huse' Hattack'.
    apply (Hmax (key', t')). apply filter_In.
    split; [now apply availableTools_usable | now apply bool_decide_eq_true_2].
  - apply In_sortByDamage in Hin0.
    destruct (sortByDamage attacks); [destruct Hin0 | discriminate].
Qed.

Lemma bot_attacks_with_strongest_witness :
  exists key t,
    usable turnBased fresh key t /\ best_attack turnBased fresh t /\
    makeDecision turnBased 0 0 0 fresh = Move (name t).
Proof.
  apply bot_attacks_with_strongest.
  - now left.
  - simpl. lia.
  - right. discriminate.
  - exists "strike", (mkTool "Strike" ["strike"; "hit"; "attack"] attack 10 1
                              [EDamage 15] "Quick melee attack").
    split; [split; [| reflexivity] | reflexivity].
    simpl. tauto.
Defined.

(** ** Dodging *)

Lemma TOOLS_dodge_key key t :
  In (key, t) TOOLS ->
  key = "dodge" \/ forallb (fun effect => negb (sets_dodge effect)) (effects t) = true.
Proof. intros H. catalog_cases H; simpl; tauto. Qed.

Lemma canUseTool_dodge_disabled settings entity :
  dodgingEnabled settings = false -> canUseTool settings entity "dodge" <> Valid.
Proof. intros Hoff. unfold canUseTool, TOOLS_read. simpl. rewrite Hoff. discriminate. Qed.

Lemma isDodging_settle settings side s :
  isDodging (entityOf side s) = false ->
  isDodging (entityOf side (settle settings s)) = false.
Proof.
  intros H. unfold settle. destruct (_ && _).
  - apply isDodging_endTurn.
  - now rewrite entityOf_checkGameOver.
Qed.

Lemma useTool_dodge_disabled settings now toolInput isPlayer s :
  dodgingEnabled settings = false -> no_dodge s ->
  no_dodge (useTool settings now toolInput isPlayer s).2 /\
  Forall (fun r => dodged r = false)
         (resultsOf (useTool settings now toolInput isPlayer s).1).
Proof.
  intros Hoff Hflags.
  destruct (success (useTool settings now toolInput isPlayer s).1) eqn:Hres.
  - destruct (useTool_success _ _ _ _ _ Hres)
      as (key & t & Hfind & _ & _ & Hcan & Heq).
    cbv zeta in Heq. rewrite Heq. cbn [fst snd resultsOf].
    assert (Hme : isDodging (entityOf (sideOf isPlayer) s) = false)
      by (destruct Hflags; now destruct isPlayer).
    assert (Hyou : isDodging (entityOf (flip (sideOf isPlayer)) s) = false)
      by (destruct Hflags; now destruct isPlayer).
    destruct (TOOLS_dodge_key _ _ (findTool_In _ _ _ Hfind)) as [-> | Hnone];
      [now destruct (canUseTool_dodge_disabled settings _ Hoff Hcan) |].
    pose proof (applyEffects_caster_flag (effects t)
                  (pay key t (entityOf (sideOf isPlayer) s))
                  (entityOf (flip (sideOf isPlayer)) s) Hnone) as Hc.
    destruct (applyEffects_target_flag (effects t)
                (pay key t (entityOf (sideOf isPlayer) s))
                (entityOf (flip (sideOf isPlayer)) s) Hyou) as [Ht Hrs].
    set (out := applyEffects _ _ _) in *.
    split; [| exact Hrs].
    assert (Hboth : forall side,
               isDodging (entityOf side (recorded now key t isPlayer out s)) = false).
    { destruct (entityOf_recorded now key t isPlayer out s) as [H1 H2].
      intros side. destruct isPlayer, side; cbn [sideOf flip] in *;
        rewrite ?H1, ?H2; try assumption; rewrite Hc; exact Hme. }
    split; [apply (isDodging_settle settings SPlayer) | apply (isDodging_settle settings SBot)];
      apply Hboth.
  - rewrite (useTool_failure _ _ _ _ _ Hres).
    split; [assumption |].
    destruct (useTool settings now toolInput isPlayer s).1; [constructor | discriminate].
Qed.

(** X17: with dodging disabled in the settings, in either mode, no state a
    run of the engine reaches has a dodge flag set, and no [useTool] call
    made there returns an effect result that records a dodge. *)
Theorem dodging_disabled_never_dodges settings s :
  dodgingEnabled settings = false ->
  reachable settings s ->
  no_dodge s /\
  forall now toolInput isPlayer,
    Forall (fun r => dodged r = false)
           (resultsOf (useTool settings now toolInput isPlayer s).1).
Proof.
  intros Hoff Hreach.
  assert (Hflags : no_dodge s).
  { induction Hreach as [| s now toolInput isPlayer _ IH | s _ IH | s now _ [Hp Hb] |].
    - split; reflexivity.
    - now apply useTool_dodge_disabled.
    - split; apply isDodging_upkeep.
    - split; [exact (eq_trans (isDodging_tick now _) Hp)
             | exact (eq_trans (isDodging_tick now _) Hb)].
    - split; reflexivity. }
  split; [exact Hflags |].
  intros now toolInput isPlayer. now apply useTool_dodge_disabled.
Qed.

Lemma dodging_disabled_never_dodges_witness :
  no_dodge (useTool (mkSettings false "realtime") 5 "dodge" true fresh).2.
Proof.
  apply (dodging_disabled_never_dodges (mkSettings false "realtime")).
  - reflexivity.
  - apply reach_useTool, reach_init.
Defined.

Lemma TOOLS_attack key t :
  In (key, t) TOOLS -> type t = attack ->
  exists value rest,
    effects t = EDamage value :: rest /\
    forallb (fun effect => negb (touches_hp effect)) rest = true.
Proof. intros H Htype. catalog_cases H; try discriminate; simpl; eauto. Qed.

Lemma applyEffects_spares_target effs : forall caster target,
  forallb (fun effect => negb (touches_hp effect)) effs = true ->
  (applyEffects effs caster target).2 = target.
Proof.
  induction effs as [| effect rest IH]; intros caster target Hall; simpl;
    [reflexivity |].
  simpl in Hall. apply andb_prop in Hall as [Heffect Hrest].
  assert (H1 : (applyEffect effect caster target).2 = target)
    by (destruct effect; simpl in *; try reflexivity; discriminate).
  specialize (IH (applyEffect effect caster target).1.2
                 (applyEffect effect caster target).2 Hrest).
  destruct (applyEffect effect caster target) as [[result c1] t1]; simpl in *.
  destruct (applyEffects rest c1 t1) as [[rs c2] t2]; simpl in *.
  congruence.
Qed.

(** X18: a set dodge flag absorbs a whole attack cast. When the opponent of
    the caller is dodging and the caller's cast of an attack tool succeeds,
    the opponent loses no hp and no shield, its flag is cleared, and the
    first effect result of the cast records the dodge. *)
Theorem dodge_absorbs_attack settings now toolInput isPlayer s key t :
  isDodging (entityOf (flip (sideOf isPlayer)) s) = true ->
  findTool toolInput = Some (key, t) -> type t = attack ->
  success (useTool settings now toolInput isPlayer s).1 = true ->
  let s' := (useTool settings now toolInput isPlayer s).2 in
  let you := flip (sideOf isPlayer) in
  hp (entityOf you s') = hp (entityOf you s) /\
  shield (entityOf you s') = shield (entityOf you s) /\
  isDodging (entityOf you s') = false /\
  exists rest, resultsOf (useTool settings now toolInput isPlayer s).1 = RDodged :: rest.
Proof.
  intros Hflag Hfind Htype Hres s' you. subst s' you.
  destruct (useTool_success _ _ _ _ _ Hres) as (key' & t' & Hfind' & _ & _ & _ & Heq).
  rewrite Hfind in Hfind'. injection Hfind' as <- <-.
  cbv zeta in Heq. rewrite Heq. cbn [fst snd resultsOf]. clear Heq.
  destruct (TOOLS_attack _ _ (findTool_In _ _ _ Hfind) Htype)
    as (value & rest & -> & Hrest).
  set (me := entityOf (sideOf isPlayer) s) in *.
  set (you := entityOf (flip (sideOf isPlayer)) s) in *.
  assert (Hout : exists rs c2,
             applyEffects (EDamage value :: rest) (pay key t me) you
             = (RDodged :: rs, c2, set_isDodging false you)).
  { simpl. rewrite Hflag.
    pose proof (applyEffects_spares_target rest (pay key t me)
                  (set_isDodging false you) Hrest) as Hspare.
    destruct (applyEffects rest (pay key t me) (set_isDodging false you))
      as [[rs c2] t2]. simpl in Hspare. subst t2. eauto. }
  destruct Hout as (rs & c2 & ->).
  destruct (entityOf_settle settings (flip (sideOf isPlayer))
              (recorded now key t isPlayer
                 (RDodged :: rs, c2, set_isDodging false you) s)) as [-> ->].
  assert (Hrec : entityOf (flip (sideOf isPlayer))
                   (recorded now key t isPlayer
                      (RDodged :: rs, c2, set_isDodging false you) s)
                 = set_isDodging false you) by now destruct isPlayer.
  rewrite Hrec. repeat split; [| eauto].
  apply isDodging_settle. now rewrite Hrec.
Qed.

Lemma dodge_absorbs_attack_witness :
  let s' := (useTool realTime 20 "fireball" false evading).2 in
  hp (player s') = hp (player evading) /\
  shield (player s') = shield (player evading) /\
  isDodging (player s') = false /\
  exists rest, resultsOf (useTool realTime 20 "fireball" false evading).1 = RDodged :: rest.
Proof.
  refine (dodge_absorbs_attack realTime 20 "fireball" false evading "fireball"
            (mkTool "Fireball" ["fireball"; "fire ball"; "fire"] attack 30 3
                    [EDamage 40] "Cast a powerful fire blast") _ _ _ _);
    vm_compute; reflexivity.
Defined.

(** X19: a [useTool] call succeeds exactly when the match is open, the
    caller holds the turn (asked only in turn-based mode), the input
    resolves to a catalog tool and [canUseTool] accepts that tool for the
    caller: the bot and the human pass through the same gate, and nothing
    else can make a call fail. *)
Theorem useTool_succeeds_iff settings now toolInput isPlayer s :
  success (useTool settings now toolInput isPlayer s).1 = true <->
  gameOver s = false /\
  (isRealTime settings = false -> turn s = sideOf isPlayer) /\
  exists key t,
    findTool toolInput = Some (key, t) /\
    canUseTool settings (entityOf (sideOf isPlayer) s) key = Valid.
Proof.
  split.
  - intros Hres.
    destruct (useTool_success _ _ _ _ _ Hres) as (key & t & Hfind & Hopen & Hturn & Hcan & _).
    eauto 10.
  - intros (Hopen & Hturn & key & t & Hfind & Hcan).
    now apply (useTool_succeeds settings now toolInput isPlayer s key t).
Qed.

Lemma useTool_succeeds_iff_witness :
  success (useTool realTime 5 "bolt" false fresh).1 = true.
Proof.
  apply useTool_succeeds_iff. split; [reflexivity |].
  split; [discriminate |]. eexists _, _. split; reflexivity.
Defined.
